(** * Authentication and auth-token issuance of the Keystone auth package

    A shallow embedding of [packages-next/auth/src]: the [AuthErrorCode]
    enumeration of [types.ts], and [generateToken], [getErrorMessage],
    [attemptAuthentication], [updateAuthToken] and the three mutation
    resolvers that [getExtendGraphQLSchema] registers.

    The code is asynchronous glue around capabilities owned by the host
    (the list adapter, the secret field, GraphQL execution, sessions, the
    console, the clock, the random source).  Each call to such a capability
    is an [Event]; a program is a finite tree of events ([Prog]), run against
    a [Handler] that answers the events over a world of its own, and every
    run yields the list of calls that were made, in order.

    The configuration is taken to be valid, as [validateConfig] requires:
    the configured list exists and has the secret field, so
    [ctx.keystone.lists[listKey]] and [list.fieldsByPath[secretField]] are
    there.  Every call is answered; a call that throws, or a promise that
    rejects, leaves the resolver as an exception and is not a run here. *)

From Stdlib Require Import Strings.String Strings.Ascii Strings.Byte List ZArith NArith Bool Lia.
Import ListNotations.
Local Open Scope string_scope.
Local Open Scope list_scope.
Set Warnings "-register-all".

(** ** JavaScript values *)

Module Js.

(** The values the code looks at: [undefined], [null], booleans, numbers
    (integers suffice: enum ordinals and lengths), strings, objects as
    property lists (first binding wins) and arrays. *)
Inductive value : Type :=
| Undefined
| Null
| Bool (b : bool)
| Num (n : Z)
| Str (s : string)
| Obj (props : list (string * value))
| Arr (elems : list value).

(** An object: what the adapter returns for a record, a resolver's
    arguments, a resolver's payload. *)
Definition object : Type := list (string * value).

(** [ToBoolean]: what [!v], [v && w], [v || w] and [if (v)] test. *)
Definition truthy (v : value) : bool :=
  match v with
  | Undefined | Null => false
  | Bool b => b
  | Num n => negb (n =? 0)%Z
  | Str s => negb (s =? "")
  | Obj _ | Arr _ => true
  end.

(** [o[k]] on an object: [undefined] when the property is missing. *)
Fixpoint get (o : object) (k : string) : value :=
  match o with
  | [] => Undefined
  | (k', v) :: rest => if k' =? k then v else get rest k
  end.

(** [v.k] guarded by the truthiness of [v], as in [e && e.k]: property
    access on an object, [undefined] on every other truthy value. *)
Definition prop (v : value) (k : string) : value :=
  match v with
  | Obj o => get o k
  | _ => Undefined
  end.

(** [a && b] and [a || b] on values. *)
Definition and_ (a b : value) : value := if truthy a then b else a.
Definition or_ (a b : value) : value := if truthy a then a else b.

(** [===] on primitive values; two object or array literals are never
    identical. *)
Definition strict_eqb (a b : value) : bool :=
  match a, b with
  | Undefined, Undefined | Null, Null => true
  | Bool x, Bool y => Bool.eqb x y
  | Num x, Num y => (x =? y)%Z
  | Str x, Str y => (x =? y)
  | _, _ => false
  end.

(** [Array.isArray(v) && v.length > 0]. *)
Definition nonempty_array (v : value) : bool :=
  match v with
  | Arr (_ :: _) => true
  | _ => false
  end.

(** [v[0]] on an array ([undefined] when out of range or not an array). *)
Definition first (v : value) : value :=
  match v with
  | Arr (x :: _) => x
  | _ => Undefined
  end.

End Js.

(** ** types.ts: the error codes *)

(** [enum AuthErrorCode]: a numeric TypeScript enum, so each member is its
    ordinal at run time and [AuthErrorCode[n]] is the member's name. *)
Inductive AuthErrorCode : Type :=
| PASSWORD_AUTH_FAILURE
| PASSWORD_AUTH_IDENTITY_NOT_FOUND
| PASSWORD_AUTH_SECRET_NOT_SET
| PASSWORD_AUTH_MULTIPLE_IDENTITY_MATCHES
| PASSWORD_AUTH_SECRET_MISMATCH
| AUTH_TOKEN_REQUEST_IDENTITY_NOT_FOUND
| AUTH_TOKEN_REQUEST_MULTIPLE_IDENTITY_MATCHES
| AUTH_TOKEN_REDEMPTION_INVALID_TOKEN
| AUTH_TOKEN_REDEMPTION_TOKEN_EXPIRED
| AUTH_TOKEN_REDEMPTION_TOKEN_REDEEMED
| AUTH_TOKEN_INTERNAL_ERROR
| CUSTOM_ERROR.

(** The run-time value of a member. *)
Definition code_ordinal (c : AuthErrorCode) : Z :=
  match c with
  | PASSWORD_AUTH_FAILURE => 0
  | PASSWORD_AUTH_IDENTITY_NOT_FOUND => 1
  | PASSWORD_AUTH_SECRET_NOT_SET => 2
  | PASSWORD_AUTH_MULTIPLE_IDENTITY_MATCHES => 3
  | PASSWORD_AUTH_SECRET_MISMATCH => 4
  | AUTH_TOKEN_REQUEST_IDENTITY_NOT_FOUND => 5
  | AUTH_TOKEN_REQUEST_MULTIPLE_IDENTITY_MATCHES => 6
  | AUTH_TOKEN_REDEMPTION_INVALID_TOKEN => 7
  | AUTH_TOKEN_REDEMPTION_TOKEN_EXPIRED => 8
  | AUTH_TOKEN_REDEMPTION_TOKEN_REDEEMED => 9
  | AUTH_TOKEN_INTERNAL_ERROR => 10
  | CUSTOM_ERROR => 11
  end.

(** The reverse mapping [AuthErrorCode[code]]. *)
Definition code_name (c : AuthErrorCode) : string :=
  match c with
  | PASSWORD_AUTH_FAILURE => "PASSWORD_AUTH_FAILURE"
  | PASSWORD_AUTH_IDENTITY_NOT_FOUND => "PASSWORD_AUTH_IDENTITY_NOT_FOUND"
  | PASSWORD_AUTH_SECRET_NOT_SET => "PASSWORD_AUTH_SECRET_NOT_SET"
  | PASSWORD_AUTH_MULTIPLE_IDENTITY_MATCHES => "PASSWORD_AUTH_MULTIPLE_IDENTITY_MATCHES"
  | PASSWORD_AUTH_SECRET_MISMATCH => "PASSWORD_AUTH_SECRET_MISMATCH"
  | AUTH_TOKEN_REQUEST_IDENTITY_NOT_FOUND => "AUTH_TOKEN_REQUEST_IDENTITY_NOT_FOUND"
  | AUTH_TOKEN_REQUEST_MULTIPLE_IDENTITY_MATCHES => "AUTH_TOKEN_REQUEST_MULTIPLE_IDENTITY_MATCHES"
  | AUTH_TOKEN_REDEMPTION_INVALID_TOKEN => "AUTH_TOKEN_REDEMPTION_INVALID_TOKEN"
  | AUTH_TOKEN_REDEMPTION_TOKEN_EXPIRED => "AUTH_TOKEN_REDEMPTION_TOKEN_EXPIRED"
  | AUTH_TOKEN_REDEMPTION_TOKEN_REDEEMED => "AUTH_TOKEN_REDEMPTION_TOKEN_REDEEMED"
  | AUTH_TOKEN_INTERNAL_ERROR => "AUTH_TOKEN_INTERNAL_ERROR"
  | CUSTOM_ERROR => "CUSTOM_ERROR"
  end.

(** [code] as the JavaScript value the resolvers test with [result.code];
    an absent code is [undefined]. *)
Definition code_value (c : option AuthErrorCode) : Js.value :=
  match c with
  | Some c => Js.Num (code_ordinal c)
  | None => Js.Undefined
  end.

(** ** The token generator's string pipeline *)

(** The base64 alphabet of [Buffer.toString('base64')]. *)
Definition base64_alphabet : list ascii :=
  list_ascii_of_string
    "ABCDEFGHIJKLMNOPQRSTUVWXYZabcdefghijklmnopqrstuvwxyz0123456789+/".

Definition base64_digit (i : N) : ascii :=
  nth (N.to_nat (N.land i 63)) base64_alphabet "="%char.

(** Standard padded base64 of a byte buffer: three bytes give four digits,
    a tail of one or two bytes is padded with [=]. *)
Fixpoint base64 (bs : list byte) : string :=
  match bs with
  | [] => EmptyString
  | [a] =>
      let n := N.shiftl (Byte.to_N a) 16 in
      String (base64_digit (N.shiftr n 18))
        (String (base64_digit (N.shiftr n 12)) "==")
  | [a; b] =>
      let n := N.lor (N.shiftl (Byte.to_N a) 16) (N.shiftl (Byte.to_N b) 8) in
      String (base64_digit (N.shiftr n 18))
        (String (base64_digit (N.shiftr n 12))
           (String (base64_digit (N.shiftr n 6)) "="))
  | a :: b :: c :: rest =>
      let n := N.lor (N.lor (N.shiftl (Byte.to_N a) 16) (N.shiftl (Byte.to_N b) 8))
                     (Byte.to_N c) in
      String (base64_digit (N.shiftr n 18))
        (String (base64_digit (N.shiftr n 12))
           (String (base64_digit (N.shiftr n 6))
              (String (base64_digit n) (base64 rest))))
  end.

(** [s.slice(0, length)] for a non-negative [length]. *)
Fixpoint slice0 (length : nat) (s : string) : string :=
  match length, s with
  | S n, String c rest => String c (slice0 n rest)
  | _, _ => EmptyString
  end.

(** The character class [[a-zA-Z0-9]]. *)
Definition alphanumeric (c : ascii) : bool :=
  let n := nat_of_ascii c in
  ((48 <=? n) && (n <=? 57) || (65 <=? n) && (n <=? 90)
   || (97 <=? n) && (n <=? 122))%nat.

(** [s.replace(/[^a-zA-Z0-9]/g, '')]. *)
Fixpoint strip_non_alphanumeric (s : string) : string :=
  match s with
  | EmptyString => EmptyString
  | String c rest =>
      if alphanumeric c then String c (strip_non_alphanumeric rest)
      else strip_non_alphanumeric rest
  end.

(** Every character of a string satisfies a test. *)
Fixpoint string_forallb (p : ascii -> bool) (s : string) : bool :=
  match s with
  | EmptyString => true
  | String c rest => p c && string_forallb p rest
  end.

(** ** Calls to the host and programs over them *)

(** Which delivery callback of the configuration is invoked. *)
Inductive Link : Type :=
| PasswordResetLink   (* [passwordResetLink.sendToken] *)
| MagicAuthLink.      (* [magicAuthLink.sendToken] *)

(** One call to a capability the module consumes, indexed by the type of
    its answer.
    - [AdapterFind k f v] is [lists[k].adapter.find({ [f]: v })];
    - [GenerateHash k f s] and [Compare k f c h] are [generateHash(s)] and
      [compare(c, h)] of the field instance [lists[k].fieldsByPath[f]];
    - [RandomBytes n] is [crypto.randomBytes(n)];
    - [Now] is [new Date().toISOString()];
    - [ExecuteGraphQL skip m id data] is [keystone.executeGraphQL] on a
      context created with [skipAccessControl: skip], for the mutation
      field [m(id: id, data: data) { id }]; its answer is the [errors]
      member of the outcome;
    - [ConsoleError v] is [console.error(v)];
    - [StartSession k id] is [ctx.startSession({ listKey: k, itemId: id })];
    - [SendToken l id identity token] is the configured [sendToken]
      callback of link [l]. *)
Inductive Event : Type -> Type :=
| AdapterFind (listKey field : string) (v : Js.value) : Event (list Js.object)
| GenerateHash (listKey field : string) (plaintext : string) : Event Js.value
| Compare (listKey field : string) (candidate stored : Js.value) : Event bool
| RandomBytes (size : nat) : Event (list byte)
| Now : Event string
| ExecuteGraphQL (skipAccessControl : bool) (mutation : string)
    (id : Js.value) (data : Js.object) : Event Js.value
| ConsoleError (v : Js.value) : Event unit
| StartSession (listKey : string) (itemId : Js.value) : Event Js.value
| SendToken (link : Link) (itemId identity : Js.value) (token : string) : Event unit.

(** A call together with the answer it got. *)
Inductive Call : Type :=
| CFind (listKey field : string) (v : Js.value) (items : list Js.object)
| CGenerateHash (listKey field : string) (plaintext : string) (hash : Js.value)
| CCompare (listKey field : string) (candidate stored : Js.value) (isMatch : bool)
| CRandomBytes (size : nat) (bytes : list byte)
| CNow (iso : string)
| CExecuteGraphQL (skipAccessControl : bool) (mutation : string)
    (id : Js.value) (data : Js.object) (errors : Js.value)
| CConsoleError (v : Js.value)
| CStartSession (listKey : string) (itemId : Js.value) (token : Js.value)
| CSendToken (link : Link) (itemId identity : Js.value) (token : string).

Definition record_call {X : Type} (e : Event X) : X -> Call :=
  match e in Event T return T -> Call with
  | AdapterFind k f v => CFind k f v
  | GenerateHash k f s => CGenerateHash k f s
  | Compare k f c h => CCompare k f c h
  | RandomBytes n => CRandomBytes n
  | Now => CNow
  | ExecuteGraphQL skip m id data => CExecuteGraphQL skip m id data
  | ConsoleError v => fun _ => CConsoleError v
  | StartSession k id => CStartSession k id
  | SendToken l id identity token => fun _ => CSendToken l id identity token
  end.

(** An [async] function of the module: it returns, or awaits a call and
    goes on with the answer.  The code has no loop, so the tree is finite. *)
Inductive Prog (A : Type) : Type :=
| Ret (a : A)
| Vis {X : Type} (e : Event X) (k : X -> Prog A).

Arguments Ret {A} a.
Arguments Vis {A X} e k.

Fixpoint bind {A B : Type} (p : Prog A) (f : A -> Prog B) : Prog B :=
  match p with
  | Ret a => f a
  | Vis e k => Vis e (fun x => bind (k x) f)
  end.

(** [await] of one call. *)
Definition trigger {X : Type} (e : Event X) : Prog X := Vis e Ret.

Declare Scope prog_scope.
Delimit Scope prog_scope with prog.
Notation "x <- p ;; q" := (bind p (fun x => q))
  (at level 61, p at next level, right associativity) : prog_scope.
Notation "p ;; q" := (bind p (fun _ => q))
  (at level 61, right associativity) : prog_scope.
Local Open Scope prog_scope.

(** The host: it answers every call and moves its world on. *)
Definition Handler (W : Type) : Type := forall X : Type, Event X -> W -> X * W.

(** The outcome of a run: the value returned, the world left behind and the
    calls made. *)
Record Run (A W : Type) : Type := mkRun {
  returned : A;
  final : W;
  calls : list Call
}.

Arguments mkRun {A W} returned final calls.
Arguments returned {A W} r.
Arguments final {A W} r.
Arguments calls {A W} r.

Fixpoint exec {W A : Type} (h : Handler W) (p : Prog A) (w : W) : Run A W :=
  match p with
  | Ret a => mkRun a w []
  | Vis e k =>
      let xw := h _ e w in
      let r := exec h (k (fst xw)) (snd xw) in
      mkRun (returned r) (final r) (record_call e (fst xw) :: calls r)
  end.

(** The answer the host gives to one call in a given world. *)
Definition answer {W X : Type} (h : Handler W) (e : Event X) (w : W) : X :=
  fst (h X e w).

Definition after {W X : Type} (h : Handler W) (e : Event X) (w : W) : W :=
  snd (h X e w).

(** ** The schema extension ([getExtendGraphQLSchema]) *)

(** The string [generateToken] makes of the random bytes: base64, the
    first [length] characters, with everything but letters and digits
    removed. *)
Definition tokenOfBytes (length : nat) (bytes : list byte) : string :=
  strip_non_alphanumeric (slice0 length (base64 bytes)).

(** [generateToken(length)]. *)
Definition generateToken (length : nat) : Prog string :=
  bytes <- trigger (RandomBytes length) ;;
  Ret (tokenOfBytes length bytes).

Definition getErrorMessage
    (identityField secretField itemSingular itemPlural : string)
    (code : AuthErrorCode) : string :=
  match code with
  | PASSWORD_AUTH_FAILURE => "Authentication failed"
  | PASSWORD_AUTH_IDENTITY_NOT_FOUND =>
      "The " ++ identityField ++ " value provided didn't identify any " ++ itemPlural
  | PASSWORD_AUTH_SECRET_NOT_SET =>
      "The " ++ itemSingular ++ " identified has no " ++ secretField
        ++ " set so can not be authenticated"
  | PASSWORD_AUTH_MULTIPLE_IDENTITY_MATCHES =>
      "The " ++ identityField ++ " value provided identified more than one "
        ++ itemSingular
  | PASSWORD_AUTH_SECRET_MISMATCH => "The " ++ secretField ++ " provided is incorrect"
  | AUTH_TOKEN_REQUEST_IDENTITY_NOT_FOUND =>
      "The " ++ identityField ++ " value provided didn't identify any " ++ itemPlural
  | AUTH_TOKEN_REQUEST_MULTIPLE_IDENTITY_MATCHES =>
      "The " ++ identityField ++ " value provided identified more than one "
        ++ itemSingular
  | AUTH_TOKEN_REDEMPTION_INVALID_TOKEN => "The token provided is invalid"
  | AUTH_TOKEN_REDEMPTION_TOKEN_EXPIRED => "The token provided has expired"
  | AUTH_TOKEN_REDEMPTION_TOKEN_REDEEMED => "The token provided has already been redeemed"
  | AUTH_TOKEN_INTERNAL_ERROR =>
      "An unexpected error condition was encountered while creating or redeeming an auth token"
  | CUSTOM_ERROR => "No error message defined"
  end.

(** [ResolvedAuthGqlNames] of types.ts. *)
Record ResolvedAuthGqlNames : Type := {
  gql_authenticateItemWithPassword : string;
  gql_sendItemPasswordResetLink : string;
  gql_sendItemMagicAuthLink : string;
  gql_createInitialItem : string;
  ItemAuthenticationWithPasswordResult : string;
  ItemAuthenticationWithPasswordSuccess : string;
  ItemAuthenticationWithPasswordFailure : string;
  sendItemPasswordResetLinkResult : string;
  sendItemMagicAuthLinkResult : string
}.

(** The arguments of [getExtendGraphQLSchema], which its inner functions
    close over.  A link is [true] when the configuration supplies it (and
    with it a [sendToken] callback). *)
Record Config : Type := {
  listKey : string;
  identityField : string;
  secretField : string;
  protectIdentities : bool;
  gqlNames : ResolvedAuthGqlNames;
  passwordResetLink : bool;
  magicAuthLink : bool
}.

(** [list.adminUILabels] of a list of the host. *)
Record AdminUILabels : Type := {
  singular : string;
  plural : string
}.

(** What the resolvers read off [ctx.keystone.lists]: each list's labels. *)
Definition Lists : Type := string -> AdminUILabels.

(** The result of [attemptAuthentication]. *)
Inductive AttemptResult : Type :=
| AttemptSuccess (item : Js.object)          (* [{ success: true, item }] *)
| AttemptFailure (code : AuthErrorCode).     (* [{ success: false, code }] *)

(** The result of [updateAuthToken]; the code of a failure is optional. *)
Inductive TokenResult : Type :=
| TokenSuccess (itemId : Js.value) (token : string)
| TokenFailure (code : option AuthErrorCode).

(** [items[0]]; the code reads it only where [items.length >= 1]. *)
Definition item0 (items : list Js.object) : Js.object := hd [] items.

Section SchemaExtension.

Variable cfg : Config.

(** The identity classification of [attemptAuthentication]: the value of
    [specificCode] after the [if] chain. *)
Definition attemptSpecificCode (items : list Js.object) : option AuthErrorCode :=
  if (length items =? 0)%nat then Some PASSWORD_AUTH_IDENTITY_NOT_FOUND
  else if (length items =? 1)%nat
          && negb (Js.truthy (Js.get (item0 items) (secretField cfg)))
       then Some PASSWORD_AUTH_SECRET_NOT_SET
  else if (1 <? length items)%nat then Some PASSWORD_AUTH_MULTIPLE_IDENTITY_MATCHES
  else None.

Definition attemptAuthentication (args : Js.object) : Prog AttemptResult :=
  let identity := Js.get args (identityField cfg) in
  let canidatePlaintext := Js.get args (secretField cfg) in
  items <- trigger (AdapterFind (listKey cfg) (identityField cfg) identity) ;;
  match attemptSpecificCode items with
  | Some specificCode =>
      (if protectIdentities cfg
       then
         _ <- trigger (GenerateHash (listKey cfg) (secretField cfg)
                         "simulated-password-to-counter-timing-attack") ;;
         Ret tt
       else Ret tt) ;;
      Ret (AttemptFailure
             (if protectIdentities cfg then PASSWORD_AUTH_FAILURE else specificCode))
  | None =>
      let item := item0 items in
      isMatch <- trigger (Compare (listKey cfg) (secretField cfg) canidatePlaintext
                            (Js.get item (secretField cfg))) ;;
      if negb isMatch
      then Ret (AttemptFailure
                  (if protectIdentities cfg then PASSWORD_AUTH_FAILURE
                   else PASSWORD_AUTH_SECRET_MISMATCH))
      else Ret (AttemptSuccess item)
  end.

(** The identity classification of [updateAuthToken]. *)
Definition tokenSpecificCode (items : list Js.object) : option AuthErrorCode :=
  if (length items =? 0)%nat then Some AUTH_TOKEN_REQUEST_IDENTITY_NOT_FOUND
  else if (1 <? length items)%nat then Some AUTH_TOKEN_REQUEST_MULTIPLE_IDENTITY_MATCHES
  else None.

(** The [data] argument of the mutation [updateAuthToken] sends. *)
Definition tokenData (tokenType token now : string) : Js.object :=
  [ ((tokenType ++ "Token")%string, Js.Str token);
    ((tokenType ++ "IssuedAt")%string, Js.Str now);
    ((tokenType ++ "RedeemedAt")%string, Js.Null) ].

(** What [updateAuthToken] hands to [console.error] for the [errors] of a
    failed write: [errors[0] && (errors[0].stack || errors[0].message)]. *)
Definition loggedError (errors : Js.value) : Js.value :=
  Js.and_ (Js.first errors)
          (Js.or_ (Js.prop (Js.first errors) "stack")
                  (Js.prop (Js.first errors) "message")).

Definition updateAuthToken (tokenType : string) (identity : Js.value)
  : Prog TokenResult :=
  items <- trigger (AdapterFind (listKey cfg) (identityField cfg) identity) ;;
  match tokenSpecificCode items with
  | Some specificCode =>
      Ret (TokenFailure (if protectIdentities cfg then None else Some specificCode))
  | None =>
      let item := item0 items in
      token <- generateToken 20 ;;
      now <- trigger Now ;;
      errors <- trigger (ExecuteGraphQL true "updateUser" (Js.get item "id")
                           (tokenData tokenType token now)) ;;
      if Js.nonempty_array errors
      then
        trigger (ConsoleError (loggedError errors)) ;;
        Ret (TokenFailure (Some AUTH_TOKEN_INTERNAL_ERROR))
      else Ret (TokenSuccess (Js.get item "id") token)
  end.

Variable lists : Lists.

(** The failure payload [{ code: AuthErrorCode[code], message }]. *)
Definition codePayload (code : AuthErrorCode) : Js.object :=
  [ ("code", Js.Str (code_name code));
    ("message",
     Js.Str (getErrorMessage (identityField cfg) (secretField cfg)
               (singular (lists (listKey cfg))) (plural (lists (listKey cfg)))
               code)) ].

(** The resolver registered as [gqlNames.authenticateItemWithPassword]. *)
Definition authenticateItemWithPassword (args : Js.object) : Prog Js.object :=
  result <- attemptAuthentication args ;;
  match result with
  | AttemptFailure code =>
      Ret (("__typename", Js.Str (ItemAuthenticationWithPasswordFailure (gqlNames cfg)))
             :: codePayload code)
  | AttemptSuccess item =>
      token <- trigger (StartSession "User" (Js.get item "id")) ;;
      Ret [ ("__typename", Js.Str (ItemAuthenticationWithPasswordSuccess (gqlNames cfg)));
            ("token", token);
            ("item", Js.Obj item) ]
  end.

(** The tail shared by the two link resolvers: a failure with a truthy
    code is reported, everything else is the empty object. *)
Definition tokenPayload (result : TokenResult) : Js.object :=
  match result with
  | TokenFailure code =>
      match code with
      | Some c => if Js.truthy (code_value code) then codePayload c else []
      | None => []
      end
  | TokenSuccess _ _ => []
  end.

(** The resolver registered as [gqlNames.sendItemPasswordResetLink];
    [passwordResetLink?.sendToken] is skipped when the link is not
    configured. *)
Definition sendItemPasswordResetLink (args : Js.object) : Prog Js.object :=
  let identity := Js.get args (identityField cfg) in
  result <- updateAuthToken "passwordReset" identity ;;
  match result with
  | TokenSuccess itemId token =>
      if passwordResetLink cfg
      then trigger (SendToken PasswordResetLink itemId identity token)
      else Ret tt
  | TokenFailure _ => Ret tt
  end ;;
  Ret (tokenPayload result).

(** The resolver registered as [gqlNames.sendItemMagicAuthLink]; without a
    configured link the callback defaults to a function that does
    nothing. *)
Definition sendItemMagicAuthLink (args : Js.object) : Prog Js.object :=
  let identity := Js.get args (identityField cfg) in
  result <- updateAuthToken "magicAuth" identity ;;
  match result with
  | TokenSuccess itemId token =>
      if magicAuthLink cfg
      then trigger (SendToken MagicAuthLink itemId identity token)
      else Ret tt
  | TokenFailure _ => Ret tt
  end ;;
  Ret (tokenPayload result).

End SchemaExtension.

(** ** A reference host *)

(** A small, executable host on which the programs can be run: lists of
    records kept by list key, a queue of outcomes for the random source, a
    fixed clock, and logs of what reached the console, the session store
    and the delivery callbacks.  The update mutation of the list keyed [K]
    is named [updateK], as the host generates it. *)
Module Host.

Record World : Type := mkWorld {
  store : list (string * list Js.object);
  entropy : list (list byte);
  clock : string;
  console : list Js.value;
  sessions : list (string * Js.value);
  outbox : list (Link * Js.value * Js.value * string)
}.

(** [o[k] = v]. *)
Fixpoint assign (o : Js.object) (k : string) (v : Js.value) : Js.object :=
  match o with
  | [] => [(k, v)]
  | (k', v') :: rest =>
      if (k' =? k)%string then (k, v) :: rest else (k', v') :: assign rest k v
  end.

Definition assignAll (o data : Js.object) : Js.object :=
  fold_left (fun acc kv => assign acc (fst kv) (snd kv)) data o.

Fixpoint records (st : list (string * list Js.object)) (k : string)
  : list Js.object :=
  match st with
  | [] => []
  | (k', rs) :: rest => if (k' =? k)%string then rs else records rest k
  end.

Definition matches (f : string) (v : Js.value) (r : Js.object) : bool :=
  Js.strict_eqb (Js.get r f) v.

(** The list whose update mutation is named [m], if any. *)
Fixpoint updateTarget (st : list (string * list Js.object)) (m : string)
  : option string :=
  match st with
  | [] => None
  | (k, _) :: rest =>
      if (("update" ++ k) =? m)%string then Some k else updateTarget rest m
  end.

Definition updateRecords (id : Js.value) (data : Js.object)
    (rs : list Js.object) : list Js.object :=
  map (fun r => if matches "id" id r then assignAll r data else r) rs.

Fixpoint updateStore (st : list (string * list Js.object)) (k : string)
    (id : Js.value) (data : Js.object) : list (string * list Js.object) :=
  match st with
  | [] => []
  | (k', rs) :: rest =>
      if (k' =? k)%string then (k', updateRecords id data rs) :: rest
      else (k', rs) :: updateStore rest k id data
  end.

Definition graphQLError (message : string) : Js.value :=
  Js.Arr [Js.Obj [("message", Js.Str message)]].

Definition setStore (w : World) (st : list (string * list Js.object)) : World :=
  mkWorld st (entropy w) (clock w) (console w) (sessions w) (outbox w).

(** The outcome of [m(id, data)]: access is denied without the bypass, the
    mutation must exist and the record must be there. *)
Definition executeUpdate (skip : bool) (m : string) (id : Js.value)
    (data : Js.object) (w : World) : Js.value * World :=
  if negb skip then (graphQLError "You do not have access to this resource", w)
  else
    match updateTarget (store w) m with
    | None => (graphQLError "Cannot query field on type Mutation", w)
    | Some k =>
        if existsb (matches "id" id) (records (store w) k)
        then (Js.Undefined, setStore w (updateStore (store w) k id data))
        else (graphQLError "Unable to find item to update", w)
    end.

Definition hashOf (plaintext : string) : Js.value :=
  Js.Str ("hash:" ++ plaintext).

Definition compareHash (candidate stored : Js.value) : bool :=
  match candidate with
  | Js.Str s => Js.strict_eqb stored (hashOf s)
  | _ => false
  end.

Definition handle : Handler World :=
  fun X e w =>
    match e in Event T return T * World with
    | AdapterFind k f v => (filter (matches f v) (records (store w) k), w)
    | GenerateHash _ _ s => (hashOf s, w)
    | Compare _ _ c h => (compareHash c h, w)
    | RandomBytes n =>
        (firstn n (hd [] (entropy w) ++ repeat x00 n),
         mkWorld (store w) (tl (entropy w)) (clock w) (console w) (sessions w)
                 (outbox w))
    | Now => (clock w, w)
    | ExecuteGraphQL skip m id data => executeUpdate skip m id data w
    | ConsoleError v =>
        (tt, mkWorld (store w) (entropy w) (clock w) (console w ++ [v])
                     (sessions w) (outbox w))
    | StartSession k id =>
        (Js.Str ("session:" ++ k),
         mkWorld (store w) (entropy w) (clock w) (console w)
                 (sessions w ++ [(k, id)]) (outbox w))
    | SendToken l id identity token =>
        (tt, mkWorld (store w) (entropy w) (clock w) (console w) (sessions w)
                     (outbox w ++ [(l, id, identity, token)]))
    end.

End Host.

(** ** Sample configurations and worlds *)

Module Sample.

Definition names : ResolvedAuthGqlNames := {|
  gql_authenticateItemWithPassword := "authenticateUserWithPassword";
  gql_sendItemPasswordResetLink := "sendUserPasswordResetLink";
  gql_sendItemMagicAuthLink := "sendUserMagicAuthLink";
  gql_createInitialItem := "createInitialUser";
  ItemAuthenticationWithPasswordResult := "UserAuthenticationWithPasswordResult";
  ItemAuthenticationWithPasswordSuccess := "UserAuthenticationWithPasswordSuccess";
  ItemAuthenticationWithPasswordFailure := "UserAuthenticationWithPasswordFailure";
  sendItemPasswordResetLinkResult := "SendUserPasswordResetLinkResult";
  sendItemMagicAuthLinkResult := "SendUserMagicAuthLinkResult"
|}.

(** Authentication against the list [key], with or without identity
    protection. *)
Definition config (key : string) (protect : bool) : Config := {|
  listKey := key;
  identityField := "email";
  secretField := "password";
  protectIdentities := protect;
  gqlNames := names;
  passwordResetLink := true;
  magicAuthLink := true
|}.

Definition labels : Lists :=
  fun k => {| singular := k; plural := (k ++ "s")%string |}.

Definition alice : Js.object :=
  [ ("id", Js.Str "1"); ("email", Js.Str "a@x.com");
    ("password", Host.hashOf "correct") ].

(** A record without a secret. *)
Definition bob : Js.object :=
  [ ("id", Js.Str "2"); ("email", Js.Str "b@x.com"); ("password", Js.Null) ].

(** Two records with one identity. *)
Definition dan : Js.object :=
  [ ("id", Js.Str "3"); ("email", Js.Str "d@x.com");
    ("password", Host.hashOf "dan") ].
Definition dan' : Js.object :=
  [ ("id", Js.Str "4"); ("email", Js.Str "d@x.com");
    ("password", Host.hashOf "dan") ].

(** A record of another list, with the id of [alice]. *)
Definition pat : Js.object :=
  [ ("id", Js.Str "1"); ("email", Js.Str "p@x.com");
    ("password", Host.hashOf "pat") ].

Definition users : list Js.object := [alice; bob; dan; dan'].

Definition world (bytes : list byte) : Host.World := {|
  Host.store := [("User", users); ("Person", [pat])];
  Host.entropy := [bytes];
  Host.clock := "2020-10-01T00:00:00.000Z";
  Host.console := [];
  Host.sessions := [];
  Host.outbox := []
|}.

(** A world whose only list is [Person]: no mutation [updateUser]. *)
Definition peopleOnly (bytes : list byte) : Host.World := {|
  Host.store := [("Person", [pat])];
  Host.entropy := [bytes];
  Host.clock := "2020-10-01T00:00:00.000Z";
  Host.console := [];
  Host.sessions := [];
  Host.outbox := []
|}.

Definition credentials (email password : string) : Js.object :=
  [ ("email", Js.Str email); ("password", Js.Str password) ].

Definition quiet : list byte := repeat x00 20.
Definition noisy : list byte := repeat xff 20.

End Sample.

(** ** What the statements observe of a run *)

(** The secret of a record counts as set when the code's own test
    [!item[secretField]] fails; [undefined] and [null] are unset. *)
Definition secretSet (cfg : Config) (item : Js.object) : bool :=
  Js.truthy (Js.get item (secretField cfg)).

(** The classification of an identity lookup for password authentication:
    no record, one record without a secret, several records. *)
Inductive Classified (cfg : Config) : list Js.object -> AuthErrorCode -> Prop :=
| classified_none :
    Classified cfg [] PASSWORD_AUTH_IDENTITY_NOT_FOUND
| classified_unset item :
    secretSet cfg item = false ->
    Classified cfg [item] PASSWORD_AUTH_SECRET_NOT_SET
| classified_many items :
    2 <= length items ->
    Classified cfg items PASSWORD_AUTH_MULTIPLE_IDENTITY_MATCHES.

(** The lookup both operations start with. *)
Definition identityLookup (cfg : Config) (identity : Js.value)
  : Event (list Js.object) :=
  AdapterFind (listKey cfg) (identityField cfg) identity.

(** The calls of an issuance that reached the write: lookup, random bytes,
    clock, the mutation, and the console when the write failed. *)
Definition issuanceCalls (cfg : Config) (tokenType : string) (identity : Js.value)
    (item : Js.object) (bytes : list byte) (now : string) (errors : Js.value)
  : list Call :=
  [ CFind (listKey cfg) (identityField cfg) identity [item];
    CRandomBytes 20 bytes;
    CNow now;
    CExecuteGraphQL true "updateUser" (Js.get item "id")
      (tokenData tokenType (tokenOfBytes 20 bytes) now) errors ]
  ++ (if Js.nonempty_array errors then [CConsoleError (loggedError errors)] else []).

Definition issuanceResult (item : Js.object) (bytes : list byte)
    (errors : Js.value) : TokenResult :=
  if Js.nonempty_array errors
  then TokenFailure (Some AUTH_TOKEN_INTERNAL_ERROR)
  else TokenSuccess (Js.get item "id") (tokenOfBytes 20 bytes).

(** The calls a link resolver adds to those of [updateAuthToken]: the
    delivery callback, on success, when the link is configured. *)
Definition deliveryCalls (configured : bool) (link : Link) (identity : Js.value)
    (result : TokenResult) : list Call :=
  match result with
  | TokenSuccess itemId token =>
      if configured then [CSendToken link itemId identity token] else []
  | TokenFailure _ => []
  end.

(** A write of the run failed: some [executeGraphQL] call was answered with
    a non-empty array of errors. *)
Definition writeFailed (cs : list Call) : bool :=
  existsb (fun c => match c with
                    | CExecuteGraphQL _ _ _ _ errors => Js.nonempty_array errors
                    | _ => false
                    end) cs.

(** The payload of the internal error: the code's name and its fixed
    message, whatever the configuration and the labels. *)
Definition internalErrorPayload : Js.object :=
  [ ("code", Js.Str "AUTH_TOKEN_INTERNAL_ERROR");
    ("message",
     Js.Str "An unexpected error condition was encountered while creating or redeeming an auth token") ].

(** The two link mutations. *)
Definition linkResolver (link : Link) (cfg : Config) (lists : Lists)
    (args : Js.object) : Prog Js.object :=
  match link with
  | PasswordResetLink => sendItemPasswordResetLink cfg lists args
  | MagicAuthLink => sendItemMagicAuthLink cfg lists args
  end.

(** ** Redemption *)

Module Redemption.

(** The token fields of an identity record for one token type, with times
    in minutes. *)
Record TokenFields : Type := mkFields {
  token : option string;
  issuedAt : Z;
  redeemedAt : option Z
}.

Inductive Result : Type :=
| Redeemed
| Refused (code : AuthErrorCode).

Definition sameToken (stored : option string) (supplied : string) : bool :=
  match stored with
  | Some t => (t =? supplied)%string
  | None => false
  end.

(** Modelled from the spec: the redemption operation, for which the package
    declares error codes and messages but holds no code.  A token
    is valid iff it matches the stored value, [RedeemedAt] is unset and
    [now - IssuedAt <= tokensValidForMins]; the violations map to
    [AUTH_TOKEN_REDEMPTION_INVALID_TOKEN], [..._TOKEN_REDEEMED] and
    [..._TOKEN_EXPIRED], tested in the order the conditions are listed; a
    successful redemption sets [RedeemedAt = now]. *)
Definition redeem (tokensValidForMins : Z) (fields : TokenFields)
    (supplied : string) (now : Z) : Result * TokenFields :=
  if negb (sameToken (token fields) supplied)
  then (Refused AUTH_TOKEN_REDEMPTION_INVALID_TOKEN, fields)
  else match redeemedAt fields with
       | Some _ => (Refused AUTH_TOKEN_REDEMPTION_TOKEN_REDEEMED, fields)
       | None =>
           if (now - issuedAt fields >? tokensValidForMins)%Z
           then (Refused AUTH_TOKEN_REDEMPTION_TOKEN_EXPIRED, fields)
           else (Redeemed, mkFields (token fields) (issuedAt fields) (Some now))
       end.

(** Modelled from the spec: issuing a token of a type overwrites the prior
    token of that type and clears [RedeemedAt]; this is what the write of
    [updateAuthToken] stores. *)
Definition issue (fields : TokenFields) (fresh : string) (now : Z) : TokenFields :=
  mkFields (Some fresh) now None.

(** Redemption attempts made one after the other, each with its token and
    its time. *)
Definition attempts (tokensValidForMins : Z) (fields : TokenFields)
    (tries : list (string * Z)) : TokenFields :=
  fold_left (fun f t => snd (redeem tokensValidForMins f (fst t) (snd t)))
            tries fields.

End Redemption.

(** ** Kinds of calls *)

Definition isGenerateHash (c : Call) : bool :=
  match c with CGenerateHash _ _ _ _ => true | _ => false end.

Definition isCompare (c : Call) : bool :=
  match c with CCompare _ _ _ _ _ => true | _ => false end.

Definition isRandomBytes (c : Call) : bool :=
  match c with CRandomBytes _ _ => true | _ => false end.

Definition isExecuteGraphQL (c : Call) : bool :=
  match c with CExecuteGraphQL _ _ _ _ _ => true | _ => false end.

Definition isConsoleError (c : Call) : bool :=
  match c with CConsoleError _ => true | _ => false end.

Definition isStartSession (c : Call) : bool :=
  match c with CStartSession _ _ _ => true | _ => false end.

Definition isSendToken (c : Call) : bool :=
  match c with CSendToken _ _ _ _ => true | _ => false end.

(** The calls that only read: the lookup and the two operations of the
    secret field. *)
Definition readsOnly (c : Call) : bool :=
  match c with
  | CFind _ _ _ _ | CGenerateHash _ _ _ _ | CCompare _ _ _ _ _ => true
  | _ => false
  end.

(** The token type a link resolver passes to [updateAuthToken], and
    whether the configuration supplies the link's callback. *)
Definition linkTokenType (link : Link) : string :=
  match link with
  | PasswordResetLink => "passwordReset"
  | MagicAuthLink => "magicAuth"
  end.

Definition linkConfigured (link : Link) (cfg : Config) : bool :=
  match link with
  | PasswordResetLink => passwordResetLink cfg
  | MagicAuthLink => magicAuthLink cfg
  end.

(** The payload of a failed password authentication under identity
    protection. *)
Definition protectedFailurePayload (cfg : Config) : Js.object :=
  [ ("__typename", Js.Str (ItemAuthenticationWithPasswordFailure (gqlNames cfg)));
    ("code", Js.Str "PASSWORD_AUTH_FAILURE");
    ("message", Js.Str "Authentication failed") ].

(** ** The schema's enumeration, the query and the union *)

(** All members of [enum AuthErrorCode] of types.ts, in order. *)
Definition allCodes : list AuthErrorCode :=
  [ PASSWORD_AUTH_FAILURE; PASSWORD_AUTH_IDENTITY_NOT_FOUND;
    PASSWORD_AUTH_SECRET_NOT_SET; PASSWORD_AUTH_MULTIPLE_IDENTITY_MATCHES;
    PASSWORD_AUTH_SECRET_MISMATCH; AUTH_TOKEN_REQUEST_IDENTITY_NOT_FOUND;
    AUTH_TOKEN_REQUEST_MULTIPLE_IDENTITY_MATCHES;
    AUTH_TOKEN_REDEMPTION_INVALID_TOKEN; AUTH_TOKEN_REDEMPTION_TOKEN_EXPIRED;
    AUTH_TOKEN_REDEMPTION_TOKEN_REDEEMED; AUTH_TOKEN_INTERNAL_ERROR;
    CUSTOM_ERROR ].

(** The values of [enum AuthErrorCode] in the [typeDefs] of the schema
    extension, as written there. *)
Definition schemaAuthErrorCode : list string :=
  [ "PASSWORD_AUTH_FAILURE";
    "PASSWORD_AUTH_IDENTITY_NOT_FOUND";
    "PASSWORD_AUTH_SECRET_NOT_SET";
    "PASSWORD_AUTH_MULTIPLE_IDENTITY_MATCHES";
    "PASSWORD_AUTH_SECRET_MISMATCH";
    "AUTH_TOKEN_REQUEST_IDENTITY_NOT_FOUND";
    "AUTH_TOKEN_REQUEST_MULTIPLE_IDENTITY_MATCHES";
    "AUTH_TOKEN_REDEMPTION_INVALID_TOKEN";
    "AUTH_TOKEN_REDEMPTION_TOKEN_EXPIRED";
    "AUTH_TOKEN_REDEMPTION_TOKEN_REDEEMED";
    "AUTH_TOKEN_INTERNAL_ERROR";
    "CUSTOM_ERROR" ].

(** How a resolver that reads a list named by data ends: with a value, or
    with the [TypeError] of reading [.adapter] off a list that
    [ctx.keystone.lists] does not have. *)
Inductive Completion : Type :=
| Normal (v : Js.value)
| TypeError.

(** [session?.k] for a property name that no primitive or array has. *)
Definition optionalProp (session : Js.value) (k : string) : Js.value :=
  match session with
  | Js.Obj o => Js.get o k
  | _ => Js.Undefined
  end.

(** [{ ...item, [k]: v }]: the item's properties in their order, [k]
    replaced where it stands or added at the end. *)
Fixpoint spreadWith (item : Js.object) (k : string) (v : Js.value) : Js.object :=
  match item with
  | [] => [(k, v)]
  | (k', v') :: rest =>
      if (k' =? k)%string then (k, v) :: rest else (k', v') :: spreadWith rest k v
  end.

(** The resolver registered as the query [authenticatedItem]; [hasList]
    tells which keys [ctx.keystone.lists] has and [session] is
    [ctx.session]. *)
Definition authenticatedItem (hasList : string -> bool) (session : Js.value)
  : Prog Completion :=
  match optionalProp session "itemId", optionalProp session "listKey" with
  | Js.Str itemId, Js.Str sessionListKey =>
      if hasList sessionListKey
      then
        items <- trigger (AdapterFind sessionListKey "id" (Js.Str itemId)) ;;
        match items with
        | [] => Ret (Normal Js.Null)
        | item :: _ =>
            Ret (Normal (Js.Obj (spreadWith item "__typename"
                                   (Js.Str sessionListKey))))
        end
      else Ret TypeError
  | _, _ => Ret (Normal Js.Null)
  end.

(** [AuthenticatedItem.__resolveType] on a non-null root value. *)
Definition resolveType (rootVal : Js.value) : Js.value :=
  Js.prop rootVal "__typename".

(** The three-byte prefix groups of base64 that the twenty-character slice
    of a token reads: five groups, fifteen bytes. *)
Definition tokenBytesRead : nat := 15.

(** The characters base64 can produce besides letters and digits, without
    the padding. *)
Definition plusOrSlash (c : ascii) : bool :=
  (c =? "+")%char || (c =? "/")%char.

(** The characters of a string that satisfy a test. *)
Fixpoint string_count (p : ascii -> bool) (s : string) : nat :=
  match s with
  | EmptyString => 0
  | String c rest => (if p c then 1 else 0) + string_count p rest
  end.

(** A base64 digit: a letter, a digit, [+] or [/]. *)
Definition base64Character (c : ascii) : bool :=
  alphanumeric c || plusOrSlash c.

(** * Properties *)

(** ** Running programs *)

Lemma exec_bind {W A B : Type} (h : Handler W) (p : Prog A) (f : A -> Prog B) :
  forall w,
    exec h (bind p f) w =
    let r := exec h p w in
    let r' := exec h (f (returned r)) (final r) in
    mkRun (returned r') (final r') (calls r ++ calls r').
Proof.
  induction p as [a | X e k IH]; intros w; cbn.
  - destruct (exec h (f a) w); reflexivity.
  - rewrite IH. reflexivity.
Qed.

Lemma exec_trigger {W X : Type} (h : Handler W) (e : Event X) (w : W) :
  exec h (trigger e) w =
  mkRun (answer h e w) (after h e w) [record_call e (answer h e w)].
Proof. reflexivity. Qed.

(** One awaited call followed by the rest of the function. *)
Lemma exec_await {W X A : Type} (h : Handler W) (e : Event X) (k : X -> Prog A) w :
  exec h (x <- trigger e ;; k x) w =
  let r := exec h (k (answer h e w)) (after h e w) in
  mkRun (returned r) (final r) (record_call e (answer h e w) :: calls r).
Proof. reflexivity. Qed.

Lemma exec_ret {W A : Type} (h : Handler W) (a : A) w :
  exec h (Ret a) w = mkRun a w [].
Proof. reflexivity. Qed.

Lemma exec_generateToken {W A : Type} (h : Handler W) (n : nat)
    (k : string -> Prog A) w :
  exec h (token <- generateToken n ;; k token) w =
  let bytes := answer h (RandomBytes n) w in
  let r := exec h (k (tokenOfBytes n bytes)) (after h (RandomBytes n) w) in
  mkRun (returned r) (final r) (CRandomBytes n bytes :: calls r).
Proof. reflexivity. Qed.

(** ** The identity classification *)

Lemma secretSet_undefined cfg item :
  Js.get item (secretField cfg) = Js.Undefined -> secretSet cfg item = false.
Proof. unfold secretSet. intros ->. reflexivity. Qed.

Lemma secretSet_null cfg item :
  Js.get item (secretField cfg) = Js.Null -> secretSet cfg item = false.
Proof. unfold secretSet. intros ->. reflexivity. Qed.

Lemma attemptSpecificCode_nil cfg :
  attemptSpecificCode cfg [] = Some PASSWORD_AUTH_IDENTITY_NOT_FOUND.
Proof. reflexivity. Qed.

Lemma attemptSpecificCode_one cfg item :
  attemptSpecificCode cfg [item] =
  if secretSet cfg item then None else Some PASSWORD_AUTH_SECRET_NOT_SET.
Proof.
  unfold attemptSpecificCode, secretSet, item0. cbn.
  destruct (Js.truthy (Js.get item (secretField cfg))); reflexivity.
Qed.

Lemma attemptSpecificCode_many cfg items :
  2 <= length items ->
  attemptSpecificCode cfg items = Some PASSWORD_AUTH_MULTIPLE_IDENTITY_MATCHES.
Proof.
  intros Hlen. destruct items as [|a [|b rest]]; cbn in Hlen; try lia.
  reflexivity.
Qed.

(** The [if] chain computes exactly the classification. *)
Lemma attemptSpecificCode_iff cfg items code :
  attemptSpecificCode cfg items = Some code <-> Classified cfg items code.
Proof.
  split.
  - destruct items as [|a [|b rest]].
    + rewrite attemptSpecificCode_nil. intros [= <-]. constructor.
    + rewrite attemptSpecificCode_one.
      destruct (secretSet cfg a) eqn:Hset; intros [= <-].
      now constructor.
    + rewrite attemptSpecificCode_many by (cbn; lia). intros [= <-].
      constructor. cbn. lia.
  - intros [ | item Hset | its Hlen].
    + apply attemptSpecificCode_nil.
    + rewrite attemptSpecificCode_one, Hset. reflexivity.
    + now apply attemptSpecificCode_many.
Qed.

(** With one record whose secret is set no classification fires. *)
Lemma attemptSpecificCode_set cfg item :
  secretSet cfg item = true -> attemptSpecificCode cfg [item] = None.
Proof. intros Hset. rewrite attemptSpecificCode_one, Hset. reflexivity. Qed.

(** The run of [attemptAuthentication] when a classification fires. *)
Lemma attemptAuthentication_classified {W} (h : Handler W) w cfg args code :
  let find := identityLookup cfg (Js.get args (identityField cfg)) in
  let hash := GenerateHash (listKey cfg) (secretField cfg)
                "simulated-password-to-counter-timing-attack" in
  attemptSpecificCode cfg (answer h find w) = Some code ->
  exec h (attemptAuthentication cfg args) w =
  if protectIdentities cfg
  then mkRun (AttemptFailure PASSWORD_AUTH_FAILURE)
             (after h hash (after h find w))
             [record_call find (answer h find w);
              record_call hash (answer h hash (after h find w))]
  else mkRun (AttemptFailure code) (after h find w)
             [record_call find (answer h find w)].
Proof.
  intros find hash Hcode. unfold attemptAuthentication.
  fold (identityLookup cfg (Js.get args (identityField cfg))). fold find.
  rewrite exec_await. cbv zeta. rewrite Hcode.
  destruct (protectIdentities cfg); reflexivity.
Qed.

(** The run of [attemptAuthentication] when no classification fires. *)
Lemma attemptAuthentication_compared {W} (h : Handler W) w cfg args :
  let find := identityLookup cfg (Js.get args (identityField cfg)) in
  let item := item0 (answer h find w) in
  let compare := Compare (listKey cfg) (secretField cfg)
                   (Js.get args (secretField cfg))
                   (Js.get item (secretField cfg)) in
  attemptSpecificCode cfg (answer h find w) = None ->
  exec h (attemptAuthentication cfg args) w =
  mkRun (if answer h compare (after h find w)
         then AttemptSuccess item
         else AttemptFailure (if protectIdentities cfg then PASSWORD_AUTH_FAILURE
                              else PASSWORD_AUTH_SECRET_MISMATCH))
        (after h compare (after h find w))
        [record_call find (answer h find w);
         record_call compare (answer h compare (after h find w))].
Proof.
  intros find item compare Hcode. unfold attemptAuthentication.
  fold (identityLookup cfg (Js.get args (identityField cfg))). fold find.
  rewrite exec_await. cbv zeta. rewrite Hcode.
  fold item. fold compare. rewrite exec_await. cbv zeta.
  destruct (answer h compare (after h find w)); reflexivity.
Qed.

(** ** Runs of [updateAuthToken] *)

Lemma tokenSpecificCode_nil :
  tokenSpecificCode [] = Some AUTH_TOKEN_REQUEST_IDENTITY_NOT_FOUND.
Proof. reflexivity. Qed.

Lemma tokenSpecificCode_one item : tokenSpecificCode [item] = None.
Proof. reflexivity. Qed.

Lemma tokenSpecificCode_many items :
  2 <= length items ->
  tokenSpecificCode items = Some AUTH_TOKEN_REQUEST_MULTIPLE_IDENTITY_MATCHES.
Proof.
  intros Hlen. destruct items as [|a [|b rest]]; cbn in Hlen; try lia.
  reflexivity.
Qed.

(** No classification fires exactly on a single match. *)
Lemma tokenSpecificCode_none items :
  tokenSpecificCode items = None -> exists item, items = [item].
Proof.
  destruct items as [|a [|b rest]]; try discriminate.
  intros _. now exists a.
Qed.

(** The run of [updateAuthToken] when a classification fires: the lookup
    is the only call. *)
Lemma updateAuthToken_classified {W} (h : Handler W) w cfg tokenType identity code :
  let find := identityLookup cfg identity in
  tokenSpecificCode (answer h find w) = Some code ->
  exec h (updateAuthToken cfg tokenType identity) w =
  mkRun (TokenFailure (if protectIdentities cfg then None else Some code))
        (after h find w)
        [record_call find (answer h find w)].
Proof.
  intros find Hcode. unfold updateAuthToken.
  fold (identityLookup cfg identity). fold find.
  rewrite exec_await. cbv zeta. rewrite Hcode. reflexivity.
Qed.

(** The run of [updateAuthToken] on a single match, whatever the host
    answers. *)
Lemma updateAuthToken_single {W} (h : Handler W) w cfg tokenType identity item :
  answer h (identityLookup cfg identity) w = [item] ->
  exists bytes now errors,
    returned (exec h (updateAuthToken cfg tokenType identity) w)
      = issuanceResult item bytes errors
    /\ calls (exec h (updateAuthToken cfg tokenType identity) w)
      = issuanceCalls cfg tokenType identity item bytes now errors.
Proof.
  intros Hitems. unfold updateAuthToken.
  fold (identityLookup cfg identity).
  rewrite exec_await. cbv zeta. rewrite Hitems, tokenSpecificCode_one.
  set (w1 := after h (identityLookup cfg identity) w).
  rewrite exec_generateToken. cbv zeta.
  set (bytes := answer h (RandomBytes 20) w1).
  set (w2 := after h (RandomBytes 20) w1).
  rewrite exec_await. cbv zeta.
  set (now := answer h Now w2).
  set (w3 := after h Now w2).
  rewrite exec_await. cbv zeta.
  set (write := ExecuteGraphQL true "updateUser" (Js.get (item0 [item]) "id")
                  (tokenData tokenType (tokenOfBytes 20 bytes) now)).
  set (errors := answer h write w3).
  exists bytes, now, errors.
  unfold issuanceResult, issuanceCalls.
  destruct (Js.nonempty_array errors).
  - rewrite exec_await. cbv zeta. rewrite exec_ret. split; reflexivity.
  - rewrite exec_ret. split; reflexivity.
Qed.

(** ** Runs of the resolvers *)

Lemma sendItemPasswordResetLink_run {W} (h : Handler W) w cfg lists args :
  let identity := Js.get args (identityField cfg) in
  let r := exec h (updateAuthToken cfg "passwordReset" identity) w in
  returned (exec h (sendItemPasswordResetLink cfg lists args) w)
    = tokenPayload cfg lists (returned r)
  /\ calls (exec h (sendItemPasswordResetLink cfg lists args) w)
    = calls r ++ deliveryCalls (passwordResetLink cfg) PasswordResetLink identity
                               (returned r).
Proof.
  intros identity r. unfold sendItemPasswordResetLink. fold identity.
  rewrite exec_bind. cbv zeta. fold r.
  destruct (returned r) as [itemId token | code]; cbn [deliveryCalls].
  - destruct (passwordResetLink cfg); split; reflexivity.
  - split; reflexivity.
Qed.

Lemma sendItemMagicAuthLink_run {W} (h : Handler W) w cfg lists args :
  let identity := Js.get args (identityField cfg) in
  let r := exec h (updateAuthToken cfg "magicAuth" identity) w in
  returned (exec h (sendItemMagicAuthLink cfg lists args) w)
    = tokenPayload cfg lists (returned r)
  /\ calls (exec h (sendItemMagicAuthLink cfg lists args) w)
    = calls r ++ deliveryCalls (magicAuthLink cfg) MagicAuthLink identity
                               (returned r).
Proof.
  intros identity r. unfold sendItemMagicAuthLink. fold identity.
  rewrite exec_bind. cbv zeta. fold r.
  destruct (returned r) as [itemId token | code]; cbn [deliveryCalls].
  - destruct (magicAuthLink cfg); split; reflexivity.
  - split; reflexivity.
Qed.

(** The run of the password resolver after a successful attempt. *)
Lemma authenticateItemWithPassword_success {W} (h : Handler W) w cfg lists args item :
  let r := exec h (attemptAuthentication cfg args) w in
  let start := StartSession "User" (Js.get item "id") in
  returned r = AttemptSuccess item ->
  exec h (authenticateItemWithPassword cfg lists args) w =
  mkRun [ ("__typename",
           Js.Str (ItemAuthenticationWithPasswordSuccess (gqlNames cfg)));
          ("token", answer h start (final r));
          ("item", Js.Obj item) ]
        (after h start (final r))
        (calls r ++ [record_call start (answer h start (final r))]).
Proof.
  intros r start Hok. unfold authenticateItemWithPassword.
  rewrite exec_bind. cbv zeta. fold r. rewrite Hok.
  fold start. rewrite exec_await. cbv zeta. rewrite exec_ret. reflexivity.
Qed.

(** The run of the password resolver after a failed attempt. *)
Lemma authenticateItemWithPassword_failure {W} (h : Handler W) w cfg lists args code :
  let r := exec h (attemptAuthentication cfg args) w in
  returned r = AttemptFailure code ->
  exec h (authenticateItemWithPassword cfg lists args) w =
  mkRun (("__typename",
          Js.Str (ItemAuthenticationWithPasswordFailure (gqlNames cfg)))
           :: codePayload cfg lists code)
        (final r) (calls r ++ []).
Proof.
  intros r Hfail. unfold authenticateItemWithPassword.
  rewrite exec_bind. cbv zeta. fold r. rewrite Hfail, exec_ret. reflexivity.
Qed.

(** ** The token string *)

Example base64_Man : base64 ["M"; "a"; "n"]%byte = "TWFu".
Proof. reflexivity. Qed.

Example base64_padding :
  base64 ["M"; "a"]%byte = "TWE=" /\ base64 ["M"]%byte = "TQ==".
Proof. split; reflexivity. Qed.

Lemma strip_non_alphanumeric_forallb s :
  string_forallb alphanumeric (strip_non_alphanumeric s) = true.
Proof.
  induction s as [|c s IH]; cbn; [reflexivity|].
  destruct (alphanumeric c) eqn:Hc; cbn; [rewrite Hc|]; exact IH.
Qed.

Lemma strip_non_alphanumeric_length s :
  String.length (strip_non_alphanumeric s) <= String.length s.
Proof.
  induction s as [|c s IH]; cbn; [lia|].
  destruct (alphanumeric c); cbn; lia.
Qed.

(** Stripping shortens a string exactly when some character is not a
    letter or a digit. *)
Lemma strip_non_alphanumeric_shorter s :
  String.length (strip_non_alphanumeric s) < String.length s <->
  string_forallb alphanumeric s = false.
Proof.
  induction s as [|c s IH]; cbn.
  - split; [lia | discriminate].
  - pose proof (strip_non_alphanumeric_length s) as Hle.
    destruct (alphanumeric c); cbn.
    + rewrite <- IH. lia.
    + split; [reflexivity | lia].
Qed.

Lemma slice0_length n s : String.length (slice0 n s) = Nat.min n (String.length s).
Proof.
  revert s. induction n as [|n IH]; intros [|c s]; cbn; try reflexivity.
  now rewrite IH.
Qed.

(** Padded base64 has four characters for every three bytes or part
    thereof. *)
Lemma base64_length bs :
  String.length (base64 bs) = 4 * ((length bs + 2) / 3).
Proof.
  assert (H : forall n bs, length bs <= n ->
                String.length (base64 bs) = 4 * ((length bs + 2) / 3)).
  { clear bs. induction n as [|n IH]; intros bs Hlen.
    - destruct bs; [reflexivity | cbn in Hlen; lia].
    - destruct bs as [|a [|b [|c rest]]]; try reflexivity.
      cbn [base64 String.length length].
      rewrite IH by (cbn in Hlen; lia).
      replace (S (S (S (length rest))) + 2) with ((length rest + 2) + 1 * 3) by lia.
      rewrite Nat.div_add by lia. lia. }
  apply (H (length bs)). lia.
Qed.

(** Twenty random bytes fill the slice: before stripping the token has the
    full twenty characters. *)
Lemma slice0_base64_20 bytes :
  length bytes = 20 -> String.length (slice0 20 (base64 bytes)) = 20.
Proof.
  intros Hlen. rewrite slice0_length, base64_length, Hlen. reflexivity.
Qed.

Lemma tokenOfBytes_alphanumeric n bytes :
  string_forallb alphanumeric (tokenOfBytes n bytes) = true.
Proof. apply strip_non_alphanumeric_forallb. Qed.

Lemma tokenOfBytes_length n bytes : String.length (tokenOfBytes n bytes) <= n.
Proof.
  unfold tokenOfBytes.
  pose proof (strip_non_alphanumeric_length (slice0 n (base64 bytes))) as H.
  rewrite slice0_length in H. lia.
Qed.

Lemma generateToken_returned {W} (h : Handler W) n w :
  returned (exec h (generateToken n) w) = tokenOfBytes n (answer h (RandomBytes n) w).
Proof. reflexivity. Qed.

(** ** Password authentication *)

(** C1. Whatever the host, a call to [attemptAuthentication] whose identity
    lookup returns no record fails with [PASSWORD_AUTH_IDENTITY_NOT_FOUND],
    one whose lookup returns a single record with the secret unset fails
    with [PASSWORD_AUTH_SECRET_NOT_SET], and one whose lookup returns two or
    more records fails with [PASSWORD_AUTH_MULTIPLE_IDENTITY_MATCHES]; with
    identity protection enabled each of the three fails with
    [PASSWORD_AUTH_FAILURE] instead. *)
Theorem attemptAuthentication_identity_failures :
  forall (W : Type) (h : Handler W) (w : W) (cfg : Config) (args : Js.object),
    let items := answer h (identityLookup cfg (Js.get args (identityField cfg))) w in
    let result := returned (exec h (attemptAuthentication cfg args) w) in
    let failure specific :=
      AttemptFailure (if protectIdentities cfg then PASSWORD_AUTH_FAILURE
                      else specific) in
    (items = [] -> result = failure PASSWORD_AUTH_IDENTITY_NOT_FOUND)
    /\ (forall item, items = [item] -> secretSet cfg item = false ->
        result = failure PASSWORD_AUTH_SECRET_NOT_SET)
    /\ (2 <= length items ->
        result = failure PASSWORD_AUTH_MULTIPLE_IDENTITY_MATCHES).
Proof.
  intros W h w cfg args items result failure.
  assert (Hrun : forall code, attemptSpecificCode cfg items = Some code ->
                              result = failure code).
  { intros code Hcode. unfold result, failure.
    rewrite (attemptAuthentication_classified h w cfg args code Hcode).
    destruct (protectIdentities cfg); reflexivity. }
  repeat split.
  - intros Hitems. apply Hrun. rewrite Hitems. apply attemptSpecificCode_nil.
  - intros item Hitems Hunset. apply Hrun.
    rewrite Hitems, attemptSpecificCode_one, Hunset. reflexivity.
  - intros Hlen. apply Hrun. now apply attemptSpecificCode_many.
Qed.

Lemma attemptAuthentication_identity_failures_witness :
  returned (exec Host.handle
              (attemptAuthentication (Sample.config "User" false)
                 (Sample.credentials "nobody@x.com" "correct"))
              (Sample.world Sample.quiet))
    = AttemptFailure PASSWORD_AUTH_IDENTITY_NOT_FOUND
  /\ returned (exec Host.handle
                 (attemptAuthentication (Sample.config "User" false)
                    (Sample.credentials "b@x.com" "correct"))
                 (Sample.world Sample.quiet))
    = AttemptFailure PASSWORD_AUTH_SECRET_NOT_SET
  /\ returned (exec Host.handle
                 (attemptAuthentication (Sample.config "User" true)
                    (Sample.credentials "d@x.com" "dan"))
                 (Sample.world Sample.quiet))
    = AttemptFailure PASSWORD_AUTH_FAILURE.
Proof.
  split; [|split].
  - apply (proj1 (attemptAuthentication_identity_failures
                    _ Host.handle (Sample.world Sample.quiet)
                    (Sample.config "User" false)
                    (Sample.credentials "nobody@x.com" "correct"))).
    reflexivity.
  - apply (proj1 (proj2 (attemptAuthentication_identity_failures
                    _ Host.handle (Sample.world Sample.quiet)
                    (Sample.config "User" false)
                    (Sample.credentials "b@x.com" "correct"))) Sample.bob);
      reflexivity.
  - apply (proj2 (proj2 (attemptAuthentication_identity_failures
                    _ Host.handle (Sample.world Sample.quiet)
                    (Sample.config "User" true)
                    (Sample.credentials "d@x.com" "dan")))).
    vm_compute. lia.
Defined.

(** C2. Whatever the host, when the identity lookup of
    [attemptAuthentication] returns exactly one record and its secret is
    set, the outcome follows the secret field's comparison of the supplied
    plaintext with the stored secret: on a match the result is the success
    carrying that very record (and so its id), on a mismatch it is the
    failure [PASSWORD_AUTH_SECRET_MISMATCH], or [PASSWORD_AUTH_FAILURE] with
    identity protection enabled. *)
Theorem attemptAuthentication_single_match :
  forall (W : Type) (h : Handler W) (w : W) (cfg : Config) (args : Js.object)
         (item : Js.object),
    let find := identityLookup cfg (Js.get args (identityField cfg)) in
    let compare := Compare (listKey cfg) (secretField cfg)
                     (Js.get args (secretField cfg))
                     (Js.get item (secretField cfg)) in
    let result := returned (exec h (attemptAuthentication cfg args) w) in
    answer h find w = [item] ->
    secretSet cfg item = true ->
    (answer h compare (after h find w) = true -> result = AttemptSuccess item)
    /\ (answer h compare (after h find w) = false ->
        result = AttemptFailure (if protectIdentities cfg then PASSWORD_AUTH_FAILURE
                                 else PASSWORD_AUTH_SECRET_MISMATCH)).
Proof.
  intros W h w cfg args item find compare result Hitems Hset.
  assert (Hnone : attemptSpecificCode cfg (answer h find w) = None).
  { rewrite Hitems. now apply attemptSpecificCode_set. }
  unfold result.
  rewrite (attemptAuthentication_compared h w cfg args Hnone).
  fold find. rewrite Hitems. cbn [item0 hd]. fold compare.
  split; intros ->; reflexivity.
Qed.

Lemma attemptAuthentication_single_match_witness :
  returned (exec Host.handle
              (attemptAuthentication (Sample.config "User" false)
                 (Sample.credentials "a@x.com" "correct"))
              (Sample.world Sample.quiet))
    = AttemptSuccess Sample.alice
  /\ returned (exec Host.handle
                 (attemptAuthentication (Sample.config "User" false)
                    (Sample.credentials "a@x.com" "wrong"))
                 (Sample.world Sample.quiet))
    = AttemptFailure PASSWORD_AUTH_SECRET_MISMATCH.
Proof.
  split.
  - apply (proj1 (attemptAuthentication_single_match
                    _ Host.handle (Sample.world Sample.quiet)
                    (Sample.config "User" false)
                    (Sample.credentials "a@x.com" "correct") Sample.alice
                    eq_refl eq_refl)).
    reflexivity.
  - apply (proj2 (attemptAuthentication_single_match
                    _ Host.handle (Sample.world Sample.quiet)
                    (Sample.config "User" false)
                    (Sample.credentials "a@x.com" "wrong") Sample.alice
                    eq_refl eq_refl)).
    reflexivity.
Defined.

(** C5. Whenever the identity classification of [attemptAuthentication]
    fires (no record, one record with the secret unset, several records):
    with identity protection enabled the run makes, after the lookup and
    before it returns, one [generateHash] call on the fixed string
    [simulated-password-to-counter-timing-attack] and returns
    [PASSWORD_AUTH_FAILURE]; with identity protection disabled the lookup is
    the only call and the classification's own code is returned. *)
Theorem attemptAuthentication_dummy_hash :
  forall (W : Type) (h : Handler W) (w : W) (cfg : Config) (args : Js.object)
         (code : AuthErrorCode),
    let identity := Js.get args (identityField cfg) in
    let items := answer h (identityLookup cfg identity) w in
    let run := exec h (attemptAuthentication cfg args) w in
    let dummy := GenerateHash (listKey cfg) (secretField cfg)
                   "simulated-password-to-counter-timing-attack" in
    Classified cfg items code ->
    (protectIdentities cfg = true ->
     returned run = AttemptFailure PASSWORD_AUTH_FAILURE
     /\ calls run =
        [ CFind (listKey cfg) (identityField cfg) identity items;
          CGenerateHash (listKey cfg) (secretField cfg)
            "simulated-password-to-counter-timing-attack"
            (answer h dummy (after h (identityLookup cfg identity) w)) ])
    /\ (protectIdentities cfg = false ->
        returned run = AttemptFailure code
        /\ calls run = [ CFind (listKey cfg) (identityField cfg) identity items ]).
Proof.
  intros W h w cfg args code identity items run dummy Hclass.
  apply attemptSpecificCode_iff in Hclass.
  unfold run.
  rewrite (attemptAuthentication_classified h w cfg args code Hclass).
  split; intros ->; split; reflexivity.
Qed.

Lemma attemptAuthentication_dummy_hash_witness :
  calls (exec Host.handle
           (attemptAuthentication (Sample.config "User" true)
              (Sample.credentials "b@x.com" "correct"))
           (Sample.world Sample.quiet))
    = [ CFind "User" "email" (Js.Str "b@x.com") [Sample.bob];
        CGenerateHash "User" "password"
          "simulated-password-to-counter-timing-attack"
          (Host.hashOf "simulated-password-to-counter-timing-attack") ]
  /\ calls (exec Host.handle
              (attemptAuthentication (Sample.config "User" false)
                 (Sample.credentials "b@x.com" "correct"))
              (Sample.world Sample.quiet))
    = [ CFind "User" "email" (Js.Str "b@x.com") [Sample.bob] ].
Proof.
  split.
  - apply (proj1 (attemptAuthentication_dummy_hash
                    _ Host.handle (Sample.world Sample.quiet)
                    (Sample.config "User" true)
                    (Sample.credentials "b@x.com" "correct")
                    PASSWORD_AUTH_SECRET_NOT_SET
                    (classified_unset (Sample.config "User" true) Sample.bob
                       eq_refl))
                 eq_refl).
  - apply (proj2 (attemptAuthentication_dummy_hash
                    _ Host.handle (Sample.world Sample.quiet)
                    (Sample.config "User" false)
                    (Sample.credentials "b@x.com" "correct")
                    PASSWORD_AUTH_SECRET_NOT_SET
                    (classified_unset (Sample.config "User" false) Sample.bob
                       eq_refl))
                 eq_refl).
Defined.

(** ** Token issuance *)

Lemma writeFailed_issuanceCalls cfg tokenType identity item bytes now errors :
  writeFailed (issuanceCalls cfg tokenType identity item bytes now errors)
  = Js.nonempty_array errors.
Proof.
  unfold issuanceCalls, writeFailed. cbn [app existsb orb].
  destruct (Js.nonempty_array errors); reflexivity.
Qed.

(** The only [executeGraphQL] call of an issuance is its write. *)
Lemma issuanceCalls_write cfg tokenType identity item bytes now errors
      skip m id data errors' :
  In (CExecuteGraphQL skip m id data errors')
     (issuanceCalls cfg tokenType identity item bytes now errors) ->
  skip = true /\ m = "updateUser" /\ id = Js.get item "id"
  /\ data = tokenData tokenType (tokenOfBytes 20 bytes) now /\ errors' = errors.
Proof.
  unfold issuanceCalls. cbn [app In].
  intros [H | [H | [H | [H | H]]]]; try discriminate.
  - injection H as <- <- <- <- <-. repeat split.
  - destruct (Js.nonempty_array errors); cbn in H; [destruct H as [H|[]]|destruct H].
    discriminate.
Qed.

(** What reaches the console for a failed write whose first error is an
    object: its [stack] when that is truthy, else its [message]. *)
Lemma loggedError_object props rest :
  loggedError (Js.Arr (Js.Obj props :: rest)) =
  if Js.truthy (Js.get props "stack") then Js.get props "stack"
  else Js.get props "message".
Proof. reflexivity. Qed.

(** C6. Whatever the host and the token type, a token issuance whose
    identity lookup returns no record fails with
    [AUTH_TOKEN_REQUEST_IDENTITY_NOT_FOUND] and one whose lookup returns
    two or more records fails with
    [AUTH_TOKEN_REQUEST_MULTIPLE_IDENTITY_MATCHES] when identity protection
    is disabled; with identity protection enabled both are the failure
    that carries no code. *)
Theorem updateAuthToken_identity_failures :
  forall (W : Type) (h : Handler W) (w : W) (cfg : Config)
         (tokenType : string) (identity : Js.value),
    let items := answer h (identityLookup cfg identity) w in
    let result := returned (exec h (updateAuthToken cfg tokenType identity) w) in
    let failure specific :=
      TokenFailure (if protectIdentities cfg then None else Some specific) in
    (items = [] -> result = failure AUTH_TOKEN_REQUEST_IDENTITY_NOT_FOUND)
    /\ (2 <= length items ->
        result = failure AUTH_TOKEN_REQUEST_MULTIPLE_IDENTITY_MATCHES).
Proof.
  intros W h w cfg tokenType identity items result failure.
  assert (Hrun : forall code, tokenSpecificCode items = Some code ->
                              result = failure code).
  { intros code Hcode. unfold result.
    rewrite (updateAuthToken_classified h w cfg tokenType identity code Hcode).
    reflexivity. }
  split.
  - intros Hitems. apply Hrun. rewrite Hitems. reflexivity.
  - intros Hlen. apply Hrun. now apply tokenSpecificCode_many.
Qed.

Lemma updateAuthToken_identity_failures_witness :
  returned (exec Host.handle
              (updateAuthToken (Sample.config "User" false) "passwordReset"
                 (Js.Str "nobody@x.com"))
              (Sample.world Sample.quiet))
    = TokenFailure (Some AUTH_TOKEN_REQUEST_IDENTITY_NOT_FOUND)
  /\ returned (exec Host.handle
                 (updateAuthToken (Sample.config "User" false) "magicAuth"
                    (Js.Str "d@x.com"))
                 (Sample.world Sample.quiet))
    = TokenFailure (Some AUTH_TOKEN_REQUEST_MULTIPLE_IDENTITY_MATCHES)
  /\ returned (exec Host.handle
                 (updateAuthToken (Sample.config "User" true) "magicAuth"
                    (Js.Str "d@x.com"))
                 (Sample.world Sample.quiet))
    = TokenFailure None.
Proof.
  split; [|split].
  - apply (proj1 (updateAuthToken_identity_failures
                    _ Host.handle (Sample.world Sample.quiet)
                    (Sample.config "User" false) "passwordReset"
                    (Js.Str "nobody@x.com"))).
    reflexivity.
  - apply (proj2 (updateAuthToken_identity_failures
                    _ Host.handle (Sample.world Sample.quiet)
                    (Sample.config "User" false) "magicAuth"
                    (Js.Str "d@x.com"))).
    vm_compute. lia.
  - apply (proj2 (updateAuthToken_identity_failures
                    _ Host.handle (Sample.world Sample.quiet)
                    (Sample.config "User" true) "magicAuth"
                    (Js.Str "d@x.com"))).
    vm_compute. lia.
Defined.

(** C7. Whatever the host, if the write of a token issuance fails (the
    [executeGraphQL] call of the run is answered with a non-empty array of
    errors), then [updateAuthToken] returns the failure
    [AUTH_TOKEN_INTERNAL_ERROR]; the last call of the run hands the first
    error's stack or message to [console.error]; and the value returned,
    like the payload the link resolvers build from it, is a constant that
    holds the code and its fixed message and nothing of the errors. *)
Theorem updateAuthToken_write_failure :
  forall (W : Type) (h : Handler W) (w : W) (cfg : Config) (lists : Lists)
         (tokenType : string) (identity : Js.value)
         (skip : bool) (m : string) (id : Js.value) (data : Js.object)
         (errors : Js.value),
    let run := exec h (updateAuthToken cfg tokenType identity) w in
    In (CExecuteGraphQL skip m id data errors) (calls run) ->
    Js.nonempty_array errors = true ->
    returned run = TokenFailure (Some AUTH_TOKEN_INTERNAL_ERROR)
    /\ last (calls run) (CNow "") = CConsoleError (loggedError errors)
    /\ tokenPayload cfg lists (returned run) = internalErrorPayload.
Proof.
  intros W h w cfg lists tokenType identity skip m id data errors run Hin Hfail.
  destruct (tokenSpecificCode (answer h (identityLookup cfg identity) w))
    as [code|] eqn:Hcode.
  - unfold run in Hin.
    rewrite (updateAuthToken_classified h w cfg tokenType identity code Hcode) in Hin.
    cbn in Hin. destruct Hin as [Hin | []]. discriminate.
  - destruct (tokenSpecificCode_none _ Hcode) as [item Hitems].
    destruct (updateAuthToken_single h w cfg tokenType identity item Hitems)
      as (bytes & now & errors' & Hret & Hcalls).
    fold run in Hret, Hcalls. rewrite Hcalls in Hin |- *.
    apply issuanceCalls_write in Hin.
    destruct Hin as (_ & _ & _ & _ & ->).
    rewrite Hret. unfold issuanceResult, issuanceCalls. rewrite Hfail.
    repeat split.
Qed.

Lemma updateAuthToken_write_failure_witness :
  returned (exec Host.handle
              (updateAuthToken (Sample.config "Person" false) "passwordReset"
                 (Js.Str "p@x.com"))
              (Sample.peopleOnly Sample.quiet))
    = TokenFailure (Some AUTH_TOKEN_INTERNAL_ERROR)
  /\ last (calls (exec Host.handle
                    (updateAuthToken (Sample.config "Person" false)
                       "passwordReset" (Js.Str "p@x.com"))
                    (Sample.peopleOnly Sample.quiet))) (CNow "")
    = CConsoleError (Js.Str "Cannot query field on type Mutation")
  /\ tokenPayload (Sample.config "Person" false) Sample.labels
       (returned (exec Host.handle
                    (updateAuthToken (Sample.config "Person" false)
                       "passwordReset" (Js.Str "p@x.com"))
                    (Sample.peopleOnly Sample.quiet)))
    = internalErrorPayload.
Proof.
  apply (updateAuthToken_write_failure
           _ Host.handle (Sample.peopleOnly Sample.quiet)
           (Sample.config "Person" false) Sample.labels "passwordReset"
           (Js.Str "p@x.com") true "updateUser" (Js.Str "1")
           (tokenData "passwordReset" "AAAAAAAAAAAAAAAAAAAA"
              "2020-10-01T00:00:00.000Z")
           (Host.graphQLError "Cannot query field on type Mutation")).
  - vm_compute. do 3 right. left. reflexivity.
  - reflexivity.
Defined.

Lemma writeFailed_app cs cs' :
  writeFailed (cs ++ cs') = writeFailed cs || writeFailed cs'.
Proof. apply existsb_app. Qed.

(** Under identity protection [updateAuthToken] yields a reportable code
    only through a failed write. *)
Lemma updateAuthToken_protected_payload {W} (h : Handler W) w cfg lists
      tokenType identity :
  let run := exec h (updateAuthToken cfg tokenType identity) w in
  protectIdentities cfg = true ->
  writeFailed (calls run) = false ->
  tokenPayload cfg lists (returned run) = [].
Proof.
  intros run Hprotect Hwrite.
  destruct (tokenSpecificCode (answer h (identityLookup cfg identity) w))
    as [code|] eqn:Hcode.
  - unfold run.
    rewrite (updateAuthToken_classified h w cfg tokenType identity code Hcode).
    rewrite Hprotect. reflexivity.
  - destruct (tokenSpecificCode_none _ Hcode) as [item Hitems].
    destruct (updateAuthToken_single h w cfg tokenType identity item Hitems)
      as (bytes & now & errors & Hret & Hcalls).
    fold run in Hret, Hcalls.
    rewrite Hcalls, writeFailed_issuanceCalls in Hwrite.
    rewrite Hret. unfold issuanceResult. rewrite Hwrite. reflexivity.
Qed.

Lemma linkResolver_run {W} (h : Handler W) w cfg lists link args :
  exists tokenType configured,
    let identity := Js.get args (identityField cfg) in
    let r := exec h (updateAuthToken cfg tokenType identity) w in
    returned (exec h (linkResolver link cfg lists args) w)
      = tokenPayload cfg lists (returned r)
    /\ calls (exec h (linkResolver link cfg lists args) w)
      = calls r ++ deliveryCalls configured link identity (returned r).
Proof.
  destruct link; cbn [linkResolver].
  - exists "passwordReset", (passwordResetLink cfg).
    apply sendItemPasswordResetLink_run.
  - exists "magicAuth", (magicAuthLink cfg).
    apply sendItemMagicAuthLink_run.
Qed.

(** C10. With identity protection enabled, a run of
    [sendItemPasswordResetLink] or of [sendItemMagicAuthLink] in which no
    write failed returns the empty object, whether a token was issued or the
    identity matched no record or several; so any two such runs, whatever
    their worlds and arguments, return the same payload, and a payload
    other than the empty object comes from a failed write only. *)
Theorem link_payload_hides_identity :
  forall (W : Type) (h : Handler W) (cfg : Config) (lists : Lists) (link : Link)
         (w w' : W) (args args' : Js.object),
    let run := exec h (linkResolver link cfg lists args) w in
    let run' := exec h (linkResolver link cfg lists args') w' in
    protectIdentities cfg = true ->
    writeFailed (calls run) = false ->
    writeFailed (calls run') = false ->
    returned run = [] /\ returned run' = [] /\ returned run = returned run'.
Proof.
  intros W h cfg lists link w w' args args' run run' Hprotect Hw Hw'.
  assert (Hempty : forall v a,
            writeFailed (calls (exec h (linkResolver link cfg lists a) v)) = false ->
            returned (exec h (linkResolver link cfg lists a) v) = []).
  { intros v a Hwrite.
    destruct (linkResolver_run h v cfg lists link a)
      as (tokenType & configured & Hret & Hcalls).
    rewrite Hret. rewrite Hcalls, writeFailed_app in Hwrite.
    apply orb_false_iff in Hwrite. destruct Hwrite as [Hwrite _].
    now apply updateAuthToken_protected_payload. }
  pose proof (Hempty w args Hw) as H1. pose proof (Hempty w' args' Hw') as H2.
  fold run in H1. fold run' in H2.
  repeat split; [exact H1 | exact H2 | now rewrite H1, H2].
Qed.

Lemma link_payload_hides_identity_witness :
  returned (exec Host.handle
              (sendItemPasswordResetLink (Sample.config "User" true) Sample.labels
                 (Sample.credentials "a@x.com" ""))
              (Sample.world Sample.quiet))
  = returned (exec Host.handle
                (sendItemPasswordResetLink (Sample.config "User" true) Sample.labels
                   (Sample.credentials "nobody@x.com" ""))
                (Sample.world Sample.quiet)).
Proof.
  apply (link_payload_hides_identity
           _ Host.handle (Sample.config "User" true) Sample.labels
           PasswordResetLink (Sample.world Sample.quiet)
           (Sample.world Sample.quiet)
           (Sample.credentials "a@x.com" "")
           (Sample.credentials "nobody@x.com" "")); reflexivity.
Defined.

(** C8. Whatever bytes the random source returns, the token that
    [generateToken(20)] makes (the one [updateAuthToken] persists) consists
    of letters and digits only and has at most twenty characters; and there
    are twenty random bytes whose base64 fills the twenty-character slice
    and for which stripping leaves a token strictly shorter than twenty. *)
Theorem generateToken_alphanumeric_at_most_20 :
  (forall (W : Type) (h : Handler W) (w : W),
      let token := returned (exec h (generateToken 20) w) in
      string_forallb alphanumeric token = true /\ String.length token <= 20)
  /\ (exists bytes : list byte,
         length bytes = 20
         /\ String.length (slice0 20 (base64 bytes)) = 20
         /\ returned (exec Host.handle (generateToken 20) (Sample.world bytes))
            = tokenOfBytes 20 bytes
         /\ String.length (tokenOfBytes 20 bytes) < 20).
Proof.
  split.
  - intros W h w token. unfold token. rewrite generateToken_returned.
    split; [apply tokenOfBytes_alphanumeric | apply tokenOfBytes_length].
  - exists Sample.noisy. repeat split; vm_compute; lia.
Qed.

(** The write names the mutation [updateUser] whatever list is
    configured. *)
Lemma updateAuthToken_write_mutation {W} (h : Handler W) w cfg tokenType identity
      skip m id data errors :
  In (CExecuteGraphQL skip m id data errors)
     (calls (exec h (updateAuthToken cfg tokenType identity) w)) ->
  skip = true /\ m = "updateUser".
Proof.
  intros Hin.
  destruct (tokenSpecificCode (answer h (identityLookup cfg identity) w))
    as [code|] eqn:Hcode.
  - rewrite (updateAuthToken_classified h w cfg tokenType identity code Hcode) in Hin.
    cbn in Hin. destruct Hin as [Hin | []]. discriminate.
  - destruct (tokenSpecificCode_none _ Hcode) as [item Hitems].
    destruct (updateAuthToken_single h w cfg tokenType identity item Hitems)
      as (bytes & now & errors' & _ & Hcalls).
    rewrite Hcalls in Hin. apply issuanceCalls_write in Hin.
    destruct Hin as (-> & -> & _). split; reflexivity.
Qed.

(** With the list [User] configured the token lands on the matched
    record. *)
Example sendItemPasswordResetLink_User :
  let cfg := Sample.config "User" false in
  let w := Sample.world Sample.quiet in
  let run := exec Host.handle
               (sendItemPasswordResetLink cfg Sample.labels
                  (Sample.credentials "a@x.com" "")) w in
  let issued := tokenData "passwordReset" "AAAAAAAAAAAAAAAAAAAA" (Host.clock w) in
  Host.records (Host.store (final run)) "User"
    = [Host.assignAll Sample.alice issued; Sample.bob; Sample.dan; Sample.dan']
  /\ Host.outbox (final run)
     = [(PasswordResetLink, Js.Str "1", Js.Str "a@x.com", "AAAAAAAAAAAAAAAAAAAA")]
  /\ returned run = [].
Proof. vm_compute. repeat split. Qed.

(** C3. Token issuance for the configured list [Person], in a host that
    also has a list [User]: the identity lookup matches exactly one record
    of [Person], the access-control-bypassing write is the mutation
    [updateUser] on that record's id, the matched record of [Person] is left
    as it was, the record of [User] that happens to have the same id
    receives the token, the time and the cleared redemption time, and the
    resolver reports success. *)
Theorem sendItemPasswordResetLink_writes_other_list :
  let cfg := Sample.config "Person" false in
  let w := Sample.world Sample.quiet in
  let run := exec Host.handle
               (sendItemPasswordResetLink cfg Sample.labels
                  (Sample.credentials "p@x.com" "")) w in
  let issued := tokenData "passwordReset" "AAAAAAAAAAAAAAAAAAAA" (Host.clock w) in
  answer Host.handle (identityLookup cfg (Js.Str "p@x.com")) w = [Sample.pat]
  /\ In (CExecuteGraphQL true "updateUser" (Js.Str "1") issued Js.Undefined)
        (calls run)
  /\ Host.records (Host.store (final run)) "Person" = [Sample.pat]
  /\ Host.records (Host.store (final run)) "User"
     = [Host.assignAll Sample.alice issued; Sample.bob; Sample.dan; Sample.dan']
  /\ Host.outbox (final run)
     = [(PasswordResetLink, Js.Str "1", Js.Str "p@x.com", "AAAAAAAAAAAAAAAAAAAA")]
  /\ returned run = [].
Proof.
  vm_compute. repeat split. do 3 right. left. reflexivity.
Qed.

(** The session of a successful authentication is started for the list
    key [User] whatever list is configured. *)
Lemma authenticateItemWithPassword_session {W} (h : Handler W) w cfg lists args item :
  returned (exec h (attemptAuthentication cfg args) w) = AttemptSuccess item ->
  exists token,
    last (calls (exec h (authenticateItemWithPassword cfg lists args) w)) (CNow "")
      = CStartSession "User" (Js.get item "id") token
    /\ returned (exec h (authenticateItemWithPassword cfg lists args) w)
      = [ ("__typename",
           Js.Str (ItemAuthenticationWithPasswordSuccess (gqlNames cfg)));
          ("token", token);
          ("item", Js.Obj item) ].
Proof.
  intros Hok.
  rewrite (authenticateItemWithPassword_success h w cfg lists args item Hok).
  eexists. split; [|reflexivity].
  cbn [calls record_call]. apply last_last.
Qed.

(** C4. A successful password authentication against the configured list
    [Person]: the attempt succeeds with the matched record, and the
    resolver starts the session with the list key [User], not the
    configured key, and the matched item's id; the payload carries the
    token the session capability returned and the matched item. *)
Theorem authenticateItemWithPassword_session_other_list :
  let cfg := Sample.config "Person" false in
  let w := Sample.world Sample.quiet in
  let args := Sample.credentials "p@x.com" "pat" in
  let run := exec Host.handle (authenticateItemWithPassword cfg Sample.labels args) w in
  returned (exec Host.handle (attemptAuthentication cfg args) w)
    = AttemptSuccess Sample.pat
  /\ listKey cfg = "Person"
  /\ calls run
     = [ CFind "Person" "email" (Js.Str "p@x.com") [Sample.pat];
         CCompare "Person" "password" (Js.Str "pat") (Host.hashOf "pat") true;
         CStartSession "User" (Js.Str "1") (Js.Str "session:User") ]
  /\ Host.sessions (final run) = [("User", Js.Str "1")]
  /\ returned run
     = [ ("__typename", Js.Str "UserAuthenticationWithPasswordSuccess");
         ("token", Js.Str "session:User");
         ("item", Js.Obj Sample.pat) ].
Proof. vm_compute. repeat split. Qed.

(** ** Facts about redemption *)

Module RedemptionFacts.
Import Redemption.

(** A redeemed record stays as it is under further attempts. *)
Lemma redeem_redeemed valid fields supplied now at_ :
  redeemedAt fields = Some at_ ->
  snd (redeem valid fields supplied now) = fields.
Proof.
  intros Hred. unfold redeem.
  destruct (negb (sameToken (token fields) supplied)); [reflexivity|].
  rewrite Hred. reflexivity.
Qed.

Lemma attempts_redeemed valid tries : forall fields at_,
  redeemedAt fields = Some at_ -> attempts valid fields tries = fields.
Proof.
  induction tries as [|t tries IH]; intros fields at_ Hred; [reflexivity|].
  unfold attempts. cbn [fold_left].
  rewrite (redeem_redeemed _ _ _ _ _ Hred). exact (IH _ _ Hred).
Qed.

(** What a successful redemption says about the record before and after. *)
Lemma redeem_success valid fields supplied now fields' :
  redeem valid fields supplied now = (Redeemed, fields') ->
  sameToken (token fields) supplied = true
  /\ redeemedAt fields = None
  /\ (now - issuedAt fields <= valid)%Z
  /\ fields' = mkFields (token fields) (issuedAt fields) (Some now).
Proof.
  unfold redeem.
  destruct (sameToken (token fields) supplied); cbn [negb]; [|discriminate].
  destruct (redeemedAt fields); [discriminate|].
  destruct (now - issuedAt fields >? valid)%Z eqn:Hexp; [discriminate|].
  intros [= <-]. repeat split. lia.
Qed.

(** A token that has been replaced by a new issuance no longer matches. *)
Lemma redeem_after_issue valid fields old fresh at_ now :
  old <> fresh ->
  fst (redeem valid (issue fields fresh at_) old now)
  = Refused AUTH_TOKEN_REDEMPTION_INVALID_TOKEN.
Proof.
  intros Hneq. unfold redeem, issue. cbn [token sameToken].
  destruct (String.eqb_spec fresh old) as [->|_]; [contradiction|reflexivity].
Qed.

(** A token past its validity window, not yet redeemed, has expired. *)
Lemma redeem_expired valid fields supplied now :
  sameToken (token fields) supplied = true ->
  redeemedAt fields = None ->
  (now - issuedAt fields > valid)%Z ->
  fst (redeem valid fields supplied now)
  = Refused AUTH_TOKEN_REDEMPTION_TOKEN_EXPIRED.
Proof.
  intros Hsame Hnot Hlate. unfold redeem. rewrite Hsame, Hnot. cbn [negb].
  destruct (now - issuedAt fields >? valid)%Z eqn:Hcmp; [reflexivity|].
  rewrite Z.gtb_ltb in Hcmp. apply Z.ltb_ge in Hcmp. lia.
Qed.

End RedemptionFacts.

(** ** The single-use invariant *)

(** C9. On the redemption operation as the specification describes it: a
    successful redemption at time [now] leaves [RedeemedAt = now] on the
    record, and after it, however many redemption attempts follow, with
    whatever tokens and at whatever times, every attempt to redeem that
    token is refused with [AUTH_TOKEN_REDEMPTION_TOKEN_REDEEMED]. *)
Theorem redeem_single_use :
  forall (tokensValidForMins : Z) (fields fields' : Redemption.TokenFields)
         (supplied : string) (now : Z),
    Redemption.redeem tokensValidForMins fields supplied now
      = (Redemption.Redeemed, fields') ->
    Redemption.redeemedAt fields' = Some now
    /\ forall (tries : list (string * Z)) (later : Z),
        fst (Redemption.redeem tokensValidForMins
               (Redemption.attempts tokensValidForMins fields' tries)
               supplied later)
        = Redemption.Refused AUTH_TOKEN_REDEMPTION_TOKEN_REDEEMED.
Proof.
  intros valid fields fields' supplied now Hok.
  apply RedemptionFacts.redeem_success in Hok.
  destruct Hok as (Hsame & _ & _ & ->).
  split; [reflexivity|].
  intros tries later.
  rewrite (RedemptionFacts.attempts_redeemed valid tries
             (Redemption.mkFields (Redemption.token fields)
                (Redemption.issuedAt fields) (Some now)) now)
    by reflexivity.
  unfold Redemption.redeem. cbn [Redemption.token Redemption.redeemedAt].
  rewrite Hsame. reflexivity.
Qed.

Lemma redeem_single_use_witness :
  let issued := Redemption.issue (Redemption.mkFields None 0 None) "AAAA" 100 in
  let redeemed := Redemption.mkFields (Some "AAAA") 100 (Some 105%Z) in
  Redemption.redeemedAt redeemed = Some 105%Z
  /\ fst (Redemption.redeem 10 (Redemption.attempts 10 redeemed
                                  [("AAAA", 106%Z); ("BBBB", 107%Z)])
            "AAAA" 200)
     = Redemption.Refused AUTH_TOKEN_REDEMPTION_TOKEN_REDEEMED.
Proof.
  intros issued redeemed.
  destruct (redeem_single_use 10 issued redeemed "AAAA" 105 eq_refl)
    as [Hat Hlater].
  split; [exact Hat | exact (Hlater [("AAAA", 106%Z); ("BBBB", 107%Z)] 200%Z)].
Defined.

(** * Further properties of the code *)

(** ** What a password authentication does and does not do *)

Lemma attemptSpecificCode_none cfg items :
  attemptSpecificCode cfg items = None ->
  exists item, items = [item] /\ secretSet cfg item = true.
Proof.
  destruct items as [|a [|b rest]].
  - rewrite attemptSpecificCode_nil. discriminate.
  - rewrite attemptSpecificCode_one.
    destruct (secretSet cfg a) eqn:Hset; [|discriminate].
    intros _. now exists a.
  - rewrite attemptSpecificCode_many by (cbn; lia). discriminate.
Qed.

(** The calls of [attemptAuthentication]: the lookup, and one operation of
    the secret field where there is one. *)
Lemma attemptAuthentication_calls {W} (h : Handler W) w cfg args :
  let find := identityLookup cfg (Js.get args (identityField cfg)) in
  let items := answer h find w in
  let run := exec h (attemptAuthentication cfg args) w in
  match attemptSpecificCode cfg items with
  | Some _ =>
      if protectIdentities cfg
      then exists hash,
          calls run =
          [ record_call find items;
            CGenerateHash (listKey cfg) (secretField cfg)
              "simulated-password-to-counter-timing-attack" hash ]
      else calls run = [ record_call find items ]
  | None =>
      exists isMatch,
        calls run =
        [ record_call find items;
          CCompare (listKey cfg) (secretField cfg)
            (Js.get args (secretField cfg))
            (Js.get (item0 items) (secretField cfg)) isMatch ]
  end.
Proof.
  intros find items run.
  destruct (attemptSpecificCode cfg items) as [code|] eqn:Hcode; unfold run.
  - rewrite (attemptAuthentication_classified h w cfg args code Hcode).
    destruct (protectIdentities cfg); [eexists|]; reflexivity.
  - rewrite (attemptAuthentication_compared h w cfg args Hcode).
    eexists. reflexivity.
Qed.

(** X1. Authentication succeeds only for a record the identity lookup
    returned alone, whose secret is set, and for which the secret field's
    comparison of the supplied plaintext with the stored secret said yes. *)
Theorem attemptAuthentication_success_sound :
  forall (W : Type) (h : Handler W) (w : W) (cfg : Config) (args : Js.object)
         (item : Js.object),
    let find := identityLookup cfg (Js.get args (identityField cfg)) in
    let compare := Compare (listKey cfg) (secretField cfg)
                     (Js.get args (secretField cfg))
                     (Js.get item (secretField cfg)) in
    returned (exec h (attemptAuthentication cfg args) w) = AttemptSuccess item ->
    answer h find w = [item]
    /\ secretSet cfg item = true
    /\ answer h compare (after h find w) = true.
Proof.
  intros W h w cfg args item find compare Hok.
  destruct (attemptSpecificCode cfg (answer h find w)) as [code|] eqn:Hcode.
  - rewrite (attemptAuthentication_classified h w cfg args code Hcode) in Hok.
    destruct (protectIdentities cfg); discriminate.
  - destruct (attemptSpecificCode_none _ _ Hcode) as (it & Hitems & Hset).
    rewrite (attemptAuthentication_compared h w cfg args Hcode) in Hok.
    fold find in Hok. rewrite Hitems in Hok. cbn [item0 hd returned] in Hok.
    destruct (answer h (Compare (listKey cfg) (secretField cfg)
                          (Js.get args (secretField cfg))
                          (Js.get it (secretField cfg))) (after h find w))
      eqn:Hcmp; [|discriminate].
    injection Hok as <-. repeat split; assumption.
Qed.

Lemma attemptAuthentication_success_sound_witness :
  answer Host.handle
    (identityLookup (Sample.config "User" false) (Js.Str "a@x.com"))
    (Sample.world Sample.quiet) = [Sample.alice]
  /\ secretSet (Sample.config "User" false) Sample.alice = true
  /\ Host.compareHash (Js.Str "correct") (Host.hashOf "correct") = true.
Proof.
  apply (attemptAuthentication_success_sound
           _ Host.handle (Sample.world Sample.quiet)
           (Sample.config "User" false)
           (Sample.credentials "a@x.com" "correct") Sample.alice).
  reflexivity.
Defined.

(** X2. With identity protection enabled a password authentication either
    succeeds or fails with [PASSWORD_AUTH_FAILURE], and the payload of
    every failure is one constant: the failure type's name, the code
    [PASSWORD_AUTH_FAILURE] and the message [Authentication failed],
    whatever the identity, the secret, the labels and the host. *)
Theorem authenticateItemWithPassword_protected_failure :
  forall (W : Type) (h : Handler W) (w : W) (cfg : Config) (lists : Lists)
         (args : Js.object) (code : AuthErrorCode),
    protectIdentities cfg = true ->
    returned (exec h (attemptAuthentication cfg args) w) = AttemptFailure code ->
    code = PASSWORD_AUTH_FAILURE
    /\ returned (exec h (authenticateItemWithPassword cfg lists args) w)
       = protectedFailurePayload cfg.
Proof.
  intros W h w cfg lists args code Hprotect Hfail.
  assert (Hcode : code = PASSWORD_AUTH_FAILURE).
  { set (find := identityLookup cfg (Js.get args (identityField cfg))).
    destruct (attemptSpecificCode cfg (answer h find w)) as [c|] eqn:Hc.
    - rewrite (attemptAuthentication_classified h w cfg args c Hc), Hprotect in Hfail.
      now injection Hfail as <-.
    - rewrite (attemptAuthentication_compared h w cfg args Hc), Hprotect in Hfail.
      cbn [returned] in Hfail.
      match type of Hfail with (if ?b then _ else _) = _ => destruct b end;
        [discriminate | now injection Hfail as <-]. }
  split; [exact Hcode|]. subst code.
  rewrite (authenticateItemWithPassword_failure h w cfg lists args _ Hfail).
  reflexivity.
Qed.

Lemma authenticateItemWithPassword_protected_failure_witness :
  returned (exec Host.handle
              (authenticateItemWithPassword (Sample.config "User" true)
                 Sample.labels (Sample.credentials "a@x.com" "wrong"))
              (Sample.world Sample.quiet))
  = protectedFailurePayload (Sample.config "User" true).
Proof.
  apply (authenticateItemWithPassword_protected_failure
           _ Host.handle (Sample.world Sample.quiet)
           (Sample.config "User" true) Sample.labels
           (Sample.credentials "a@x.com" "wrong") PASSWORD_AUTH_FAILURE);
    reflexivity.
Defined.

(** X3. With identity protection enabled every call to
    [attemptAuthentication] makes exactly two calls to the host, whatever
    the lookup returns: the lookup, then one operation of the secret field,
    the dummy [generateHash] or the real [compare]. *)
Theorem attemptAuthentication_protected_work :
  forall (W : Type) (h : Handler W) (w : W) (cfg : Config) (args : Js.object),
    protectIdentities cfg = true ->
    exists lookup work,
      calls (exec h (attemptAuthentication cfg args) w) = [lookup; work]
      /\ lookup = CFind (listKey cfg) (identityField cfg)
                    (Js.get args (identityField cfg))
                    (answer h (identityLookup cfg (Js.get args (identityField cfg))) w)
      /\ (isGenerateHash work || isCompare work = true).
Proof.
  intros W h w cfg args Hprotect.
  pose proof (attemptAuthentication_calls h w cfg args) as Hcalls.
  cbv zeta in Hcalls.
  destruct (attemptSpecificCode cfg _) as [code|].
  - rewrite Hprotect in Hcalls. destruct Hcalls as [hash ->].
    eexists. eexists. repeat split.
  - destruct Hcalls as [isMatch ->]. eexists. eexists. repeat split.
Qed.

Lemma attemptAuthentication_protected_work_witness :
  exists lookup work,
    calls (exec Host.handle
             (attemptAuthentication (Sample.config "User" true)
                (Sample.credentials "nobody@x.com" "x"))
             (Sample.world Sample.quiet)) = [lookup; work]
    /\ lookup = CFind "User" "email" (Js.Str "nobody@x.com") []
    /\ (isGenerateHash work || isCompare work = true).
Proof.
  apply (attemptAuthentication_protected_work
           _ Host.handle (Sample.world Sample.quiet)
           (Sample.config "User" true)
           (Sample.credentials "nobody@x.com" "x")).
  reflexivity.
Defined.

(** X4. Whatever the host and the protection setting, [attemptAuthentication]
    calls the secret field's [compare] exactly when the lookup returned a
    single record whose secret is set, and computes the dummy hash exactly
    when identity protection is enabled and the lookup returned anything
    else. *)
Theorem attemptAuthentication_secret_operations :
  forall (W : Type) (h : Handler W) (w : W) (cfg : Config) (args : Js.object),
    let items := answer h (identityLookup cfg (Js.get args (identityField cfg))) w in
    let run := exec h (attemptAuthentication cfg args) w in
    let single := exists item, items = [item] /\ secretSet cfg item = true in
    (existsb isCompare (calls run) = true <-> single)
    /\ (existsb isGenerateHash (calls run) = true <->
        protectIdentities cfg = true /\ ~ single).
Proof.
  intros W h w cfg args items run single.
  pose proof (attemptAuthentication_calls h w cfg args) as Hcalls.
  cbv zeta in Hcalls. fold items run in Hcalls.
  destruct (attemptSpecificCode cfg items) as [code|] eqn:Hcode.
  - assert (Hnot : ~ single).
    { intros (item & Hitems & Hset).
      rewrite Hitems, (attemptSpecificCode_set _ _ Hset) in Hcode. discriminate. }
    destruct (protectIdentities cfg).
    + destruct Hcalls as [hash ->]. cbn. split; split; try discriminate; tauto.
    + rewrite Hcalls. cbn. split; split; try discriminate; tauto.
  - assert (Hsingle : single) by exact (attemptSpecificCode_none _ _ Hcode).
    destruct Hcalls as [isMatch ->]. cbn.
    split; split; try discriminate; tauto.
Qed.

(** The calls of [attemptAuthentication] only read. *)
Lemma attemptAuthentication_readsOnly {W} (h : Handler W) w cfg args :
  forallb readsOnly (calls (exec h (attemptAuthentication cfg args) w)) = true.
Proof.
  pose proof (attemptAuthentication_calls h w cfg args) as Hcalls.
  cbv zeta in Hcalls.
  destruct (attemptSpecificCode cfg _) as [code|].
  - destruct (protectIdentities cfg).
    + destruct Hcalls as [hash ->]. reflexivity.
    + rewrite Hcalls. reflexivity.
  - destruct Hcalls as [isMatch ->]. reflexivity.
Qed.

Lemma readsOnly_no_session cs :
  forallb readsOnly cs = true -> existsb isStartSession cs = false.
Proof.
  induction cs as [|c cs IH]; [reflexivity|]. cbn.
  intros H. apply andb_true_iff in H. destruct H as [Hc Hcs].
  rewrite (IH Hcs). destruct c; try discriminate; reflexivity.
Qed.

(** The calls of the password resolver: those of the attempt, and on
    success one [startSession]. *)
Lemma authenticateItemWithPassword_calls {W} (h : Handler W) w cfg lists args :
  let r := exec h (attemptAuthentication cfg args) w in
  calls (exec h (authenticateItemWithPassword cfg lists args) w) =
  calls r ++
  match returned r with
  | AttemptSuccess item =>
      [ CStartSession "User" (Js.get item "id")
          (answer h (StartSession "User" (Js.get item "id")) (final r)) ]
  | AttemptFailure _ => []
  end.
Proof.
  intros r. destruct (returned r) as [item | code] eqn:Hret.
  - rewrite (authenticateItemWithPassword_success h w cfg lists args item Hret).
    reflexivity.
  - rewrite (authenticateItemWithPassword_failure h w cfg lists args code Hret).
    reflexivity.
Qed.

(** X5. Whatever the host, the password resolver starts a session exactly
    when the attempt succeeded; a failed authentication, of whatever kind,
    never reaches [startSession]. *)
Theorem authenticateItemWithPassword_session_iff_success :
  forall (W : Type) (h : Handler W) (w : W) (cfg : Config) (lists : Lists)
         (args : Js.object),
    existsb isStartSession
      (calls (exec h (authenticateItemWithPassword cfg lists args) w)) = true
    <-> exists item,
        returned (exec h (attemptAuthentication cfg args) w) = AttemptSuccess item.
Proof.
  intros W h w cfg lists args.
  rewrite authenticateItemWithPassword_calls. cbv zeta.
  rewrite existsb_app.
  rewrite (readsOnly_no_session _ (attemptAuthentication_readsOnly h w cfg args)).
  destruct (returned (exec h (attemptAuthentication cfg args) w)) as [item | code];
    cbn.
  - split; [intros _; now exists item | reflexivity].
  - split; [discriminate | intros [item Hitem]; discriminate].
Qed.

(** X6. Whatever the host and the outcome, the password resolver never
    writes through GraphQL, never logs to the console, never draws random
    bytes and never calls a delivery callback: apart from the reads of the
    attempt, its only call is the one [startSession]. *)
Theorem authenticateItemWithPassword_effects :
  forall (W : Type) (h : Handler W) (w : W) (cfg : Config) (lists : Lists)
         (args : Js.object),
    forallb (fun c => readsOnly c || isStartSession c)
      (calls (exec h (authenticateItemWithPassword cfg lists args) w)) = true
    /\ length (filter isStartSession
                 (calls (exec h (authenticateItemWithPassword cfg lists args) w)))
       <= 1.
Proof.
  intros W h w cfg lists args.
  rewrite authenticateItemWithPassword_calls. cbv zeta.
  pose proof (attemptAuthentication_readsOnly h w cfg args) as Hreads.
  rewrite forallb_app, filter_app, length_app.
  assert (Hnone : filter isStartSession
                    (calls (exec h (attemptAuthentication cfg args) w)) = []).
  { apply readsOnly_no_session in Hreads.
    induction (calls (exec h (attemptAuthentication cfg args) w)) as [|c cs IH];
      [reflexivity|].
    cbn in Hreads |- *. apply orb_false_iff in Hreads.
    destruct Hreads as [-> Hcs]. exact (IH Hcs). }
  rewrite Hnone. split.
  - apply andb_true_iff. split.
    + rewrite forallb_forall in Hreads |- *.
      intros c Hin. rewrite (Hreads c Hin). reflexivity.
    + destruct (returned (exec h (attemptAuthentication cfg args) w)); reflexivity.
  - destruct (returned (exec h (attemptAuthentication cfg args) w)); cbn; lia.
Qed.

(** ** What a token issuance does and does not do *)

Lemma tokenSpecificCode_some items code :
  tokenSpecificCode items = Some code ->
  (items = [] /\ code = AUTH_TOKEN_REQUEST_IDENTITY_NOT_FOUND)
  \/ (2 <= length items /\ code = AUTH_TOKEN_REQUEST_MULTIPLE_IDENTITY_MATCHES).
Proof.
  destruct items as [|a [|b rest]]; cbn.
  - intros [= <-]. now left.
  - discriminate.
  - intros [= <-]. right. split; [lia | reflexivity].
Qed.

(** Every run of [updateAuthToken]: a lone lookup with a classified
    failure, or an issuance on the single match. *)
Lemma updateAuthToken_cases {W} (h : Handler W) w cfg tokenType identity :
  let items := answer h (identityLookup cfg identity) w in
  let run := exec h (updateAuthToken cfg tokenType identity) w in
  (exists code,
      tokenSpecificCode items = Some code
      /\ returned run = TokenFailure (if protectIdentities cfg then None
                                      else Some code)
      /\ calls run = [CFind (listKey cfg) (identityField cfg) identity items])
  \/ (exists item bytes now errors,
         items = [item]
         /\ returned run = issuanceResult item bytes errors
         /\ calls run = issuanceCalls cfg tokenType identity item bytes now errors).
Proof.
  intros items run.
  destruct (tokenSpecificCode items) as [code|] eqn:Hcode.
  - left. exists code. unfold run.
    rewrite (updateAuthToken_classified h w cfg tokenType identity code Hcode).
    repeat split.
  - right. destruct (tokenSpecificCode_none _ Hcode) as [item Hitems].
    destruct (updateAuthToken_single h w cfg tokenType identity item Hitems)
      as (bytes & now & errors & Hret & Hcalls).
    exists item, bytes, now, errors. repeat split; assumption.
Qed.

Lemma linkResolver_calls {W} (h : Handler W) w cfg lists link args :
  let identity := Js.get args (identityField cfg) in
  let r := exec h (updateAuthToken cfg (linkTokenType link) identity) w in
  returned (exec h (linkResolver link cfg lists args) w)
    = tokenPayload cfg lists (returned r)
  /\ calls (exec h (linkResolver link cfg lists args) w)
    = calls r ++ deliveryCalls (linkConfigured link cfg) link identity (returned r).
Proof.
  destruct link; cbn [linkResolver linkTokenType linkConfigured].
  - apply sendItemPasswordResetLink_run.
  - apply sendItemMagicAuthLink_run.
Qed.

(** X7. Whatever the host, the token type and the protection setting,
    [updateAuthToken] draws random bytes and sends its write exactly when
    the identity lookup returned a single record: for an identity that
    matches no record or several, no token is generated and nothing is
    written. *)
Theorem updateAuthToken_writes_iff_single :
  forall (W : Type) (h : Handler W) (w : W) (cfg : Config)
         (tokenType : string) (identity : Js.value),
    let items := answer h (identityLookup cfg identity) w in
    let run := exec h (updateAuthToken cfg tokenType identity) w in
    (existsb isExecuteGraphQL (calls run) = true <-> exists item, items = [item])
    /\ (existsb isRandomBytes (calls run) = true <-> exists item, items = [item]).
Proof.
  intros W h w cfg tokenType identity items run.
  destruct (updateAuthToken_cases h w cfg tokenType identity)
    as [(code & Hcode & _ & Hcalls) | (item & bytes & now & errors & Hitems & _ & Hcalls)];
    fold items in Hcode || fold items in Hitems; fold run in Hcalls; rewrite Hcalls.
  - assert (Hnot : ~ exists item, items = [item]).
    { intros [item Hitems]. rewrite Hitems in Hcode. discriminate. }
    cbn. split; split; try discriminate; tauto.
  - unfold issuanceCalls. cbn.
    split; split; intros _; try reflexivity; now exists item.
Qed.

(** X8. With identity protection disabled a link resolver reports every
    failure: its payload is the empty object exactly when a token was
    issued, and otherwise it carries the code and the message of one of
    [AUTH_TOKEN_REQUEST_IDENTITY_NOT_FOUND],
    [AUTH_TOKEN_REQUEST_MULTIPLE_IDENTITY_MATCHES] and
    [AUTH_TOKEN_INTERNAL_ERROR]. *)
Theorem link_payload_reports_failures :
  forall (W : Type) (h : Handler W) (w : W) (cfg : Config) (lists : Lists)
         (link : Link) (args : Js.object),
    let identity := Js.get args (identityField cfg) in
    let result := returned (exec h (updateAuthToken cfg (linkTokenType link)
                                      identity) w) in
    let payload := returned (exec h (linkResolver link cfg lists args) w) in
    protectIdentities cfg = false ->
    (payload = [] <-> exists itemId token, result = TokenSuccess itemId token)
    /\ (payload = []
        \/ exists code,
            payload = codePayload cfg lists code
            /\ result = TokenFailure (Some code)
            /\ (code = AUTH_TOKEN_REQUEST_IDENTITY_NOT_FOUND
                \/ code = AUTH_TOKEN_REQUEST_MULTIPLE_IDENTITY_MATCHES
                \/ code = AUTH_TOKEN_INTERNAL_ERROR)).
Proof.
  intros W h w cfg lists link args identity result payload Hprotect.
  destruct (linkResolver_calls h w cfg lists link args) as [Hret _].
  fold identity in Hret. fold result payload in Hret. rewrite Hret.
  destruct (updateAuthToken_cases h w cfg (linkTokenType link) identity)
    as [(code & Hcode & Hres & _) | (item & bytes & now & errors & _ & Hres & _)];
    fold result in Hres; rewrite Hres.
  - rewrite Hprotect.
    destruct (tokenSpecificCode_some _ _ Hcode) as [[_ ->] | [_ ->]]; cbn.
    + split.
      * split; [discriminate | intros (i & t & Heq); discriminate].
      * right. eexists. repeat split. now left.
    + split.
      * split; [discriminate | intros (i & t & Heq); discriminate].
      * right. eexists. repeat split. right. now left.
  - unfold issuanceResult. destruct (Js.nonempty_array errors); cbn.
    + split.
      * split; [discriminate | intros (i & t & Heq); discriminate].
      * right. eexists. repeat split. right. now right.
    + split; [|now left].
      split; [intros _; eauto | reflexivity].
Qed.

Lemma link_payload_reports_failures_witness :
  returned (exec Host.handle
              (linkResolver MagicAuthLink (Sample.config "User" false)
                 Sample.labels (Sample.credentials "a@x.com" ""))
              (Sample.world Sample.quiet)) = []
  <-> exists itemId token,
      returned (exec Host.handle
                  (updateAuthToken (Sample.config "User" false) "magicAuth"
                     (Js.Str "a@x.com"))
                  (Sample.world Sample.quiet)) = TokenSuccess itemId token.
Proof.
  apply (link_payload_reports_failures
           _ Host.handle (Sample.world Sample.quiet)
           (Sample.config "User" false) Sample.labels MagicAuthLink
           (Sample.credentials "a@x.com" "")).
  reflexivity.
Defined.

Lemma issuanceCalls_no_delivery cfg tokenType identity item bytes now errors :
  existsb isSendToken
    (issuanceCalls cfg tokenType identity item bytes now errors) = false.
Proof.
  unfold issuanceCalls. cbn. destruct (Js.nonempty_array errors); reflexivity.
Qed.

Lemma existsb_false_In (p : Call -> bool) cs c :
  existsb p cs = false -> In c cs -> p c = false.
Proof.
  intros Hnone Hin. destruct (p c) eqn:Hp; [|reflexivity].
  assert (existsb p cs = true) by (apply existsb_exists; now exists c).
  congruence.
Qed.

Lemma existsb_false_filter (p : Call -> bool) cs :
  existsb p cs = false -> filter p cs = [].
Proof.
  induction cs as [|c cs IH]; [reflexivity|]. cbn.
  intros H. apply orb_false_iff in H. destruct H as [-> Hcs]. exact (IH Hcs).
Qed.

(** X9. Whatever the host, a delivery callback called by a link resolver is
    the resolver's own link, which is configured; it gets the identity the
    caller supplied, the id of the single record the lookup returned and
    the very token that the run's write carried; and that write was
    answered without errors.  No token is handed out after a failed
    lookup or a failed write. *)
Theorem link_delivery_matches_write :
  forall (W : Type) (h : Handler W) (w : W) (cfg : Config) (lists : Lists)
         (link sent : Link) (args : Js.object) (itemId identity : Js.value)
         (token : string),
    let run := exec h (linkResolver link cfg lists args) w in
    In (CSendToken sent itemId identity token) (calls run) ->
    sent = link
    /\ linkConfigured link cfg = true
    /\ identity = Js.get args (identityField cfg)
    /\ exists item bytes now errors,
        answer h (identityLookup cfg identity) w = [item]
        /\ itemId = Js.get item "id"
        /\ token = tokenOfBytes 20 bytes
        /\ In (CExecuteGraphQL true "updateUser" itemId
                 (tokenData (linkTokenType link) token now) errors) (calls run)
        /\ Js.nonempty_array errors = false.
Proof.
  intros W h w cfg lists link sent args itemId identity token run Hin.
  destruct (linkResolver_calls h w cfg lists link args) as [_ Hcalls].
  fold run in Hcalls. cbv zeta in Hcalls.
  set (ident := Js.get args (identityField cfg)) in *.
  destruct (updateAuthToken_cases h w cfg (linkTokenType link) ident)
    as [(code & _ & Hres & Hc) | (item & bytes & now & errors & Hitems & Hres & Hc)];
    rewrite Hres, Hc in Hcalls; rewrite Hcalls in Hin |- *.
  - cbn in Hin. destruct Hin as [Hin | []]. discriminate.
  - apply in_app_or in Hin. destruct Hin as [Hin | Hin].
    + pose proof (existsb_false_In isSendToken _ _
                    (issuanceCalls_no_delivery _ _ _ _ _ _ _) Hin) as Hno.
      discriminate.
    + unfold issuanceResult in Hin |- *.
      destruct (Js.nonempty_array errors) eqn:Herr; cbn in Hin; [destruct Hin|].
      destruct (linkConfigured link cfg) eqn:Hconf; cbn in Hin; [|destruct Hin].
      destruct Hin as [Hin | []]. injection Hin as <- <- <- <-.
      repeat split.
      exists item, bytes, now, errors. repeat split; try assumption.
      apply in_or_app. left. unfold issuanceCalls. apply in_or_app. left.
      cbn. do 3 right. left. reflexivity.
Qed.

Lemma link_delivery_matches_write_witness :
  PasswordResetLink = PasswordResetLink
  /\ linkConfigured PasswordResetLink (Sample.config "User" false) = true
  /\ Js.Str "a@x.com"
     = Js.get (Sample.credentials "a@x.com" "")
         (identityField (Sample.config "User" false))
  /\ exists item bytes now errors,
      answer Host.handle
        (identityLookup (Sample.config "User" false) (Js.Str "a@x.com"))
        (Sample.world Sample.quiet) = [item]
      /\ Js.Str "1" = Js.get item "id"
      /\ "AAAAAAAAAAAAAAAAAAAA" = tokenOfBytes 20 bytes
      /\ In (CExecuteGraphQL true "updateUser" (Js.Str "1")
               (tokenData (linkTokenType PasswordResetLink)
                  "AAAAAAAAAAAAAAAAAAAA" now) errors)
            (calls (exec Host.handle
                      (linkResolver PasswordResetLink
                         (Sample.config "User" false) Sample.labels
                         (Sample.credentials "a@x.com" ""))
                      (Sample.world Sample.quiet)))
      /\ Js.nonempty_array errors = false.
Proof.
  apply (link_delivery_matches_write
           _ Host.handle (Sample.world Sample.quiet)
           (Sample.config "User" false) Sample.labels
           PasswordResetLink PasswordResetLink
           (Sample.credentials "a@x.com" "")
           (Js.Str "1") (Js.Str "a@x.com") "AAAAAAAAAAAAAAAAAAAA").
  vm_compute. do 4 right. left. reflexivity.
Defined.

(** X10. Whatever the host, a link resolver calls a delivery callback
    exactly when its link is configured and the issuance succeeded, and
    then once. *)
Theorem link_delivery_iff_issued :
  forall (W : Type) (h : Handler W) (w : W) (cfg : Config) (lists : Lists)
         (link : Link) (args : Js.object),
    let identity := Js.get args (identityField cfg) in
    let result := returned (exec h (updateAuthToken cfg (linkTokenType link)
                                      identity) w) in
    let run := exec h (linkResolver link cfg lists args) w in
    (existsb isSendToken (calls run) = true <->
     linkConfigured link cfg = true
     /\ exists itemId token, result = TokenSuccess itemId token)
    /\ length (filter isSendToken (calls run)) <= 1.
Proof.
  intros W h w cfg lists link args identity result run.
  destruct (linkResolver_calls h w cfg lists link args) as [_ Hcalls].
  fold identity in Hcalls. fold result run in Hcalls. rewrite Hcalls.
  assert (Hnone : existsb isSendToken
                    (calls (exec h (updateAuthToken cfg (linkTokenType link)
                                      identity) w)) = false).
  { destruct (updateAuthToken_cases h w cfg (linkTokenType link) identity)
      as [(code & _ & _ & ->) | (item & bytes & now & errors & _ & _ & ->)].
    - reflexivity.
    - apply issuanceCalls_no_delivery. }
  assert (Hfilter : filter isSendToken
                      (calls (exec h (updateAuthToken cfg (linkTokenType link)
                                        identity) w)) = []).
  { now apply existsb_false_filter. }
  rewrite existsb_app, filter_app, length_app, Hnone, Hfilter.
  destruct result as [itemId token | code]; cbn.
  - destruct (linkConfigured link cfg); cbn.
    + split; [|lia]. split; [intros _; eauto | reflexivity].
    + split; [|lia]. split; [discriminate | intros [Hf _]; discriminate].
  - split; [|lia]. split; [discriminate|].
    intros [_ (i & t & Heq)]; discriminate.
Qed.

(** X11. Whatever the host, a link resolver logs to the console exactly
    when its write failed, and on that run it calls no delivery
    callback. *)
Theorem link_console_iff_write_failed :
  forall (W : Type) (h : Handler W) (w : W) (cfg : Config) (lists : Lists)
         (link : Link) (args : Js.object),
    let run := exec h (linkResolver link cfg lists args) w in
    existsb isConsoleError (calls run) = writeFailed (calls run)
    /\ (writeFailed (calls run) = true -> existsb isSendToken (calls run) = false).
Proof.
  intros W h w cfg lists link args run.
  destruct (linkResolver_calls h w cfg lists link args) as [_ Hcalls].
  fold run in Hcalls. cbv zeta in Hcalls. rewrite Hcalls.
  rewrite writeFailed_app, !existsb_app.
  destruct (updateAuthToken_cases h w cfg (linkTokenType link)
              (Js.get args (identityField cfg)))
    as [(code & _ & -> & ->) | (item & bytes & now & errors & _ & -> & ->)].
  - cbn. split; [reflexivity | discriminate].
  - rewrite writeFailed_issuanceCalls, issuanceCalls_no_delivery.
    unfold issuanceCalls, issuanceResult.
    destruct (Js.nonempty_array errors); cbn.
    + split; reflexivity.
    + destruct (linkConfigured link cfg); cbn; split; try reflexivity; discriminate.
Qed.

(** X12. Whatever the host, a link resolver never calls the secret field
    ([generateHash], [compare]) and never starts a session: requesting a
    reset or magic link neither checks a password nor signs anyone in. *)
Theorem link_never_authenticates :
  forall (W : Type) (h : Handler W) (w : W) (cfg : Config) (lists : Lists)
         (link : Link) (args : Js.object),
    existsb (fun c => isGenerateHash c || isCompare c || isStartSession c)
      (calls (exec h (linkResolver link cfg lists args) w)) = false.
Proof.
  intros W h w cfg lists link args.
  destruct (linkResolver_calls h w cfg lists link args) as [_ Hcalls].
  cbv zeta in Hcalls. rewrite Hcalls, existsb_app.
  destruct (updateAuthToken_cases h w cfg (linkTokenType link)
              (Js.get args (identityField cfg)))
    as [(code & _ & -> & ->) | (item & bytes & now & errors & _ & -> & ->)].
  - reflexivity.
  - unfold issuanceCalls, issuanceResult.
    destruct (Js.nonempty_array errors); cbn;
      [|destruct (linkConfigured link cfg)]; reflexivity.
Qed.

(** ** The token and the random bytes *)

Lemma base64_alphabet_characters :
  forallb base64Character base64_alphabet = true.
Proof. reflexivity. Qed.

Lemma base64_digit_character i : base64Character (base64_digit i) = true.
Proof.
  unfold base64_digit.
  assert (Hlt : N.to_nat (N.land i 63) < length base64_alphabet).
  { change 63%N with (N.ones 6). rewrite N.land_ones.
    change (2 ^ 6)%N with 64%N. change (length base64_alphabet) with 64.
    assert (i mod 64 < 64)%N by (apply N.mod_lt; discriminate). lia. }
  pose proof base64_alphabet_characters as Hall.
  rewrite forallb_forall in Hall. apply Hall. now apply nth_In.
Qed.

(** Whole groups of three bytes: the first [4 * k] characters of the
    base64 of a buffer are the base64 of its first [3 * k] bytes. *)
Lemma slice0_base64_groups k : forall bytes,
  3 * k <= length bytes ->
  slice0 (4 * k) (base64 bytes) = base64 (firstn (3 * k) bytes).
Proof.
  induction k as [|k IH]; intros bytes Hlen.
  - reflexivity.
  - destruct bytes as [|a [|b [|c rest]]]; cbn [length] in Hlen; try lia.
    replace (4 * S k) with (S (S (S (S (4 * k))))) by lia.
    replace (3 * S k) with (S (S (S (3 * k)))) by lia.
    cbn [slice0 base64 firstn]. rewrite IH by lia. reflexivity.
Qed.

(** The slice of a token: five groups, fifteen bytes. *)
Lemma slice0_20_base64 bytes :
  15 <= length bytes -> slice0 20 (base64 bytes) = base64 (firstn 15 bytes).
Proof. exact (slice0_base64_groups 5 bytes). Qed.

(** Whole groups hold no padding. *)
Lemma base64_groups_characters k : forall bytes,
  length bytes = 3 * k ->
  string_forallb base64Character (base64 bytes) = true.
Proof.
  induction k as [|k IH]; intros bytes Hlen.
  - destruct bytes; [reflexivity | cbn in Hlen; lia].
  - destruct bytes as [|a [|b [|c rest]]]; cbn [length] in Hlen; try lia.
    cbn [base64 string_forallb].
    rewrite !base64_digit_character, IH by lia. reflexivity.
Qed.

Lemma alphanumeric_not_plusOrSlash c :
  alphanumeric c = true -> plusOrSlash c = false.
Proof.
  destruct c as [[] [] [] [] [] [] [] []]; vm_compute; congruence.
Qed.

(** On base64 digits, what stripping removes are the [+] and [/]. *)
Lemma strip_non_alphanumeric_count s :
  string_forallb base64Character s = true ->
  String.length (strip_non_alphanumeric s) + string_count plusOrSlash s
  = String.length s.
Proof.
  induction s as [|c s IH]; [reflexivity|].
  cbn [string_forallb strip_non_alphanumeric string_count String.length].
  intros H. apply andb_true_iff in H. destruct H as [Hc Hs].
  specialize (IH Hs). unfold base64Character in Hc.
  destruct (alphanumeric c) eqn:Ha.
  - rewrite (alphanumeric_not_plusOrSlash c Ha). cbn [String.length]. lia.
  - cbn in Hc. rewrite Hc. lia.
Qed.

(** X13. Of the random bytes that [generateToken(20)] draws, only the
    first fifteen reach the token: whenever the random source returns at
    least fifteen bytes (it returns twenty), the token is the base64 of the
    first fifteen with everything but letters and digits removed, so two
    draws that agree on their first fifteen bytes give the same token. *)
Theorem generateToken_reads_fifteen_bytes :
  forall (W : Type) (h : Handler W) (w : W),
    let bytes := answer h (RandomBytes 20) w in
    tokenBytesRead <= length bytes ->
    returned (exec h (generateToken 20) w)
    = strip_non_alphanumeric (base64 (firstn tokenBytesRead bytes)).
Proof.
  intros W h w bytes Hlen. rewrite generateToken_returned. fold bytes.
  unfold tokenOfBytes, tokenBytesRead in *.
  now rewrite (slice0_20_base64 bytes Hlen).
Qed.

Lemma generateToken_reads_fifteen_bytes_witness :
  returned (exec Host.handle (generateToken 20)
              (Sample.world (repeat x00 15 ++ repeat xff 5)))
  = strip_non_alphanumeric (base64 (repeat x00 15)).
Proof.
  apply (generateToken_reads_fifteen_bytes
           _ Host.handle (Sample.world (repeat x00 15 ++ repeat xff 5))).
  vm_compute. lia.
Defined.

(** X14. For twenty random bytes the twenty-character slice that
    [generateToken(20)] takes holds base64 digits only, never padding, and
    the token's length is twenty less the number of [+] and [/] among
    them. *)
Theorem generateToken_length_20 :
  forall (W : Type) (h : Handler W) (w : W),
    let bytes := answer h (RandomBytes 20) w in
    let sliced := slice0 20 (base64 bytes) in
    length bytes = 20 ->
    string_forallb base64Character sliced = true
    /\ String.length (returned (exec h (generateToken 20) w))
       + string_count plusOrSlash sliced = 20.
Proof.
  intros W h w bytes sliced Hlen.
  assert (Hsliced : sliced = base64 (firstn 15 bytes)).
  { unfold sliced. apply slice0_20_base64. lia. }
  assert (Hchars : string_forallb base64Character sliced = true).
  { rewrite Hsliced. apply (base64_groups_characters 5).
    rewrite length_firstn. lia. }
  split; [exact Hchars|].
  rewrite generateToken_returned. fold bytes. unfold tokenOfBytes. fold sliced.
  rewrite (strip_non_alphanumeric_count sliced Hchars).
  unfold sliced. now apply slice0_base64_20.
Qed.

Lemma generateToken_length_20_witness :
  String.length (returned (exec Host.handle (generateToken 20)
                             (Sample.world (xfb :: repeat x00 19))))
  + string_count plusOrSlash (slice0 20 (base64 (xfb :: repeat x00 19))) = 20.
Proof.
  apply (generateToken_length_20
           _ Host.handle (Sample.world (xfb :: repeat x00 19))).
  reflexivity.
Defined.

(** ** The codes and messages that reach the caller *)

Lemma getErrorMessage_defined identityField secretField itemSingular itemPlural code :
  getErrorMessage identityField secretField itemSingular itemPlural code
    = "No error message defined"
  <-> code = CUSTOM_ERROR.
Proof.
  destruct code; cbn; split; intros H; try discriminate H; reflexivity.
Qed.

Lemma attemptSpecificCode_some cfg items code :
  attemptSpecificCode cfg items = Some code ->
  code = PASSWORD_AUTH_IDENTITY_NOT_FOUND
  \/ code = PASSWORD_AUTH_SECRET_NOT_SET
  \/ code = PASSWORD_AUTH_MULTIPLE_IDENTITY_MATCHES.
Proof.
  intros H. apply attemptSpecificCode_iff in H.
  destruct H; [now left | right; now left | right; now right].
Qed.

(** A failed attempt reports a password code. *)
Lemma attemptAuthentication_failure_code {W} (h : Handler W) w cfg args code :
  returned (exec h (attemptAuthentication cfg args) w) = AttemptFailure code ->
  In code [ PASSWORD_AUTH_FAILURE; PASSWORD_AUTH_IDENTITY_NOT_FOUND;
            PASSWORD_AUTH_SECRET_NOT_SET; PASSWORD_AUTH_MULTIPLE_IDENTITY_MATCHES;
            PASSWORD_AUTH_SECRET_MISMATCH ].
Proof.
  intros Hfail.
  set (find := identityLookup cfg (Js.get args (identityField cfg))).
  destruct (attemptSpecificCode cfg (answer h find w)) as [c|] eqn:Hc.
  - rewrite (attemptAuthentication_classified h w cfg args c Hc) in Hfail.
    destruct (protectIdentities cfg); injection Hfail as <-; [now left|].
    destruct (attemptSpecificCode_some _ _ _ Hc) as [-> | [-> | ->]]; cbn; tauto.
  - rewrite (attemptAuthentication_compared h w cfg args Hc) in Hfail.
    cbn [returned] in Hfail.
    match type of Hfail with (if ?b then _ else _) = _ => destruct b end;
      [discriminate|].
    destruct (protectIdentities cfg); injection Hfail as <-; cbn; tauto.
Qed.

Lemma codePayload_message cfg lists code :
  code <> CUSTOM_ERROR ->
  Js.get (codePayload cfg lists code) "message"
    <> Js.Str "No error message defined"
  /\ Js.get (codePayload cfg lists code) "code" = Js.Str (code_name code).
Proof.
  intros Hcode. split; [|reflexivity].
  cbn. intros [= Hmsg]. apply getErrorMessage_defined in Hmsg. contradiction.
Qed.

(** X15. Whatever the host, the configuration and the arguments, none of
    the three mutation resolvers ever returns the fallback message
    [No error message defined]: every failure they report carries one of
    the codes that [getErrorMessage] has a message for. *)
Theorem resolvers_never_fallback_message :
  forall (W : Type) (h : Handler W) (w : W) (cfg : Config) (lists : Lists)
         (args : Js.object),
    Js.get (returned (exec h (authenticateItemWithPassword cfg lists args) w))
      "message" <> Js.Str "No error message defined"
    /\ forall link,
        Js.get (returned (exec h (linkResolver link cfg lists args) w))
          "message" <> Js.Str "No error message defined".
Proof.
  intros W h w cfg lists args. split.
  - destruct (returned (exec h (attemptAuthentication cfg args) w))
      as [item | code] eqn:Hret.
    + rewrite (authenticateItemWithPassword_success h w cfg lists args item Hret).
      cbn. discriminate.
    + rewrite (authenticateItemWithPassword_failure h w cfg lists args code Hret).
      cbn [returned Js.get String.eqb Ascii.eqb Bool.eqb].
      apply (codePayload_message cfg lists code).
      pose proof (attemptAuthentication_failure_code h w cfg args code Hret) as Hin.
      cbn in Hin. intros ->. intuition discriminate.
  - intros link.
    destruct (linkResolver_calls h w cfg lists link args) as [-> _].
    destruct (updateAuthToken_cases h w cfg (linkTokenType link)
                (Js.get args (identityField cfg)))
      as [(code & Hcode & -> & _) | (item & bytes & now & errors & _ & -> & _)].
    + destruct (protectIdentities cfg); [cbn; discriminate|].
      destruct (tokenSpecificCode_some _ _ Hcode) as [[_ ->] | [_ ->]];
        cbn [tokenPayload code_value code_ordinal Js.truthy Z.eqb negb];
        apply codePayload_message; discriminate.
    + unfold issuanceResult. destruct (Js.nonempty_array errors).
      * cbn [tokenPayload code_value code_ordinal Js.truthy Z.eqb negb].
        apply codePayload_message; discriminate.
      * cbn. discriminate.
Qed.

Lemma allCodes_complete code : In code allCodes.
Proof. destruct code; cbn; tauto. Qed.

(** X16. The names under which the resolvers put a code into a payload,
    [AuthErrorCode[code]], are exactly the values of [enum AuthErrorCode]
    that the schema's type definitions declare, member by member and in
    the same order; so every code a payload can carry is a value of the
    GraphQL enum, distinct codes have distinct names, and only
    [PASSWORD_AUTH_FAILURE], the first member, is falsy at run time. *)
Theorem code_names_match_schema :
  map code_name allCodes = schemaAuthErrorCode
  /\ (forall code, In (code_name code) schemaAuthErrorCode)
  /\ (forall code code', code_name code = code_name code' -> code = code')
  /\ (forall code, Js.truthy (code_value (Some code)) = false <->
                   code = PASSWORD_AUTH_FAILURE).
Proof.
  split; [reflexivity|]. split; [|split].
  - intros code. change schemaAuthErrorCode with (map code_name allCodes).
    apply in_map, allCodes_complete.
  - intros code code' H.
    destruct code; destruct code'; try reflexivity; discriminate H.
  - intros code. destruct code; cbn; split; intros H; try discriminate H; reflexivity.
Qed.

(** ** The query [authenticatedItem] *)

Lemma get_spreadWith_same item k v : Js.get (spreadWith item k v) k = v.
Proof.
  induction item as [|[k' v'] rest IH]; cbn.
  - now rewrite String.eqb_refl.
  - destruct (k' =? k)%string eqn:Hk; cbn.
    + now rewrite String.eqb_refl.
    + now rewrite Hk.
Qed.

Lemma get_spreadWith_other item k v p :
  p <> k -> Js.get (spreadWith item k v) p = Js.get item p.
Proof.
  intros Hp. induction item as [|[k' v'] rest IH]; cbn.
  - destruct (String.eqb_spec k p) as [->|_]; [contradiction | reflexivity].
  - destruct (String.eqb_spec k' k) as [->|Hk]; cbn.
    + destruct (String.eqb_spec k p) as [->|_]; [contradiction | reflexivity].
    + destruct (k' =? p)%string; [reflexivity | exact IH].
Qed.

(** X17. [authenticatedItem] answers [null] without a single call to the
    host unless the session holds both an [itemId] and a [listKey] that are
    strings: no session, a session without one of the two, and a session
    whose item id is a number all give [null]. *)
Theorem authenticatedItem_without_string_session :
  forall (W : Type) (h : Handler W) (w : W) (hasList : string -> bool)
         (session : Js.value),
    (forall itemId sessionListKey,
        ~ (optionalProp session "itemId" = Js.Str itemId
           /\ optionalProp session "listKey" = Js.Str sessionListKey)) ->
    exec h (authenticatedItem hasList session) w = mkRun (Normal Js.Null) w [].
Proof.
  intros W h w hasList session Hnot. unfold authenticatedItem.
  destruct (optionalProp session "itemId") as [| | | |itemId| |] eqn:Hid;
    try reflexivity.
  destruct (optionalProp session "listKey") as [| | | |k| |] eqn:Hkey;
    try reflexivity.
  exfalso. apply (Hnot itemId k). split; reflexivity.
Qed.

Lemma authenticatedItem_without_string_session_witness :
  exec Host.handle
    (authenticatedItem (fun _ => true)
       (Js.Obj [("listKey", Js.Str "User"); ("itemId", Js.Num 1)]))
    (Sample.world Sample.quiet)
  = mkRun (Normal Js.Null) (Sample.world Sample.quiet) []
  /\ exec Host.handle (authenticatedItem (fun _ => true) Js.Undefined)
       (Sample.world Sample.quiet)
     = mkRun (Normal Js.Null) (Sample.world Sample.quiet) [].
Proof.
  split.
  - apply (authenticatedItem_without_string_session
             _ Host.handle (Sample.world Sample.quiet) (fun _ => true)
             (Js.Obj [("listKey", Js.Str "User"); ("itemId", Js.Num 1)])).
    intros itemId k [Hid _]. vm_compute in Hid. discriminate Hid.
  - apply (authenticatedItem_without_string_session
             _ Host.handle (Sample.world Sample.quiet) (fun _ => true)
             Js.Undefined).
    intros itemId k [Hid _]. vm_compute in Hid. discriminate Hid.
Defined.

(** X18. With a session that holds a string [itemId] and a string
    [listKey] naming a list of the host, [authenticatedItem] makes one
    call, the lookup by [id] in the session's list; it answers [null] when
    no record has that id, and otherwise the first record returned, with
    all its properties as they are except [__typename], which is the
    session's list key and is what [__resolveType] then answers. *)
Theorem authenticatedItem_found :
  forall (W : Type) (h : Handler W) (w : W) (hasList : string -> bool)
         (session : Js.object) (itemId sessionListKey : string),
    let find := AdapterFind sessionListKey "id" (Js.Str itemId) in
    let run := exec h (authenticatedItem hasList (Js.Obj session)) w in
    Js.get session "itemId" = Js.Str itemId ->
    Js.get session "listKey" = Js.Str sessionListKey ->
    hasList sessionListKey = true ->
    calls run = [CFind sessionListKey "id" (Js.Str itemId) (answer h find w)]
    /\ (answer h find w = [] -> returned run = Normal Js.Null)
    /\ (forall item rest,
           answer h find w = item :: rest ->
           exists result,
             returned run = Normal (Js.Obj result)
             /\ resolveType (Js.Obj result) = Js.Str sessionListKey
             /\ forall p, p <> "__typename" -> Js.get result p = Js.get item p).
Proof.
  intros W h w hasList session itemId k find run Hid Hkey Hlist.
  unfold run, authenticatedItem. cbn [optionalProp].
  rewrite Hid, Hkey, Hlist. fold find. rewrite exec_await. cbv zeta.
  destruct (answer h find w) as [|item rest] eqn:Hitems.
  - rewrite exec_ret. repeat split. intros item rest Hcons. discriminate.
  - rewrite exec_ret. repeat split; [discriminate|].
    intros item' rest' [= <- <-].
    exists (spreadWith item "__typename" (Js.Str k)).
    repeat split.
    + apply get_spreadWith_same.
    + intros p Hp. now apply get_spreadWith_other.
Qed.

Lemma authenticatedItem_found_witness :
  exists result,
    returned (exec Host.handle
                (authenticatedItem (fun _ => true)
                   (Js.Obj [("listKey", Js.Str "User"); ("itemId", Js.Str "1")]))
                (Sample.world Sample.quiet))
    = Normal (Js.Obj result)
    /\ resolveType (Js.Obj result) = Js.Str "User"
    /\ forall p, p <> "__typename" -> Js.get result p = Js.get Sample.alice p.
Proof.
  apply (proj2 (proj2 (authenticatedItem_found
                         _ Host.handle (Sample.world Sample.quiet)
                         (fun _ => true)
                         [("listKey", Js.Str "User"); ("itemId", Js.Str "1")]
                         "1" "User" eq_refl eq_refl eq_refl))
                Sample.alice []).
  reflexivity.
Defined.

(** X19. With a session whose [listKey] names no list of the host,
    [authenticatedItem] ends in a [TypeError] before any lookup: the
    session's list key is used as it is, without a check that the list
    exists. *)
Theorem authenticatedItem_unknown_list :
  forall (W : Type) (h : Handler W) (w : W) (hasList : string -> bool)
         (session : Js.object) (itemId sessionListKey : string),
    Js.get session "itemId" = Js.Str itemId ->
    Js.get session "listKey" = Js.Str sessionListKey ->
    hasList sessionListKey = false ->
    exec h (authenticatedItem hasList (Js.Obj session)) w = mkRun TypeError w [].
Proof.
  intros W h w hasList session itemId k Hid Hkey Hlist.
  unfold authenticatedItem. cbn [optionalProp].
  rewrite Hid, Hkey, Hlist. reflexivity.
Qed.

Lemma authenticatedItem_unknown_list_witness :
  exec Host.handle
    (authenticatedItem (fun k => (k =? "Person")%string)
       (Js.Obj [("listKey", Js.Str "User"); ("itemId", Js.Str "1")]))
    (Sample.peopleOnly Sample.quiet)
  = mkRun TypeError (Sample.peopleOnly Sample.quiet) [].
Proof.
  apply (authenticatedItem_unknown_list
           _ Host.handle (Sample.peopleOnly Sample.quiet)
           (fun k => (k =? "Person")%string)
           [("listKey", Js.Str "User"); ("itemId", Js.Str "1")] "1" "User");
    reflexivity.
Defined.

(** ** What a successful issuance stands for *)

Lemma append_eqb_prefix t a b : ((t ++ a) =? (t ++ b))%string = (a =? b)%string.
Proof.
  induction t as [|c t IH]; [reflexivity|].
  cbn. now rewrite Ascii.eqb_refl.
Qed.

(** X20. Whatever the host, [updateAuthToken] returns success only after a
    write that was answered without errors: the lookup returned a single
    record, the id returned is that record's, the token returned is the one
    made of the run's random bytes and carried by the run's write on that
    id under an access-control-bypassing context, and it consists of at
    most twenty letters and digits. *)
Theorem updateAuthToken_success_sound :
  forall (W : Type) (h : Handler W) (w : W) (cfg : Config)
         (tokenType : string) (identity itemId : Js.value) (token : string),
    let run := exec h (updateAuthToken cfg tokenType identity) w in
    returned run = TokenSuccess itemId token ->
    exists item bytes now errors,
      answer h (identityLookup cfg identity) w = [item]
      /\ itemId = Js.get item "id"
      /\ In (CRandomBytes 20 bytes) (calls run)
      /\ token = tokenOfBytes 20 bytes
      /\ In (CExecuteGraphQL true "updateUser" itemId
               (tokenData tokenType token now) errors) (calls run)
      /\ writeFailed (calls run) = false
      /\ string_forallb alphanumeric token = true
      /\ String.length token <= 20.
Proof.
  intros W h w cfg tokenType identity itemId token run Hok.
  destruct (updateAuthToken_cases h w cfg tokenType identity)
    as [(code & _ & Hres & _) | (item & bytes & now & errors & Hitems & Hres & Hcalls)];
    fold run in Hres; rewrite Hres in Hok; [discriminate|].
  fold run in Hcalls. unfold issuanceResult in Hok.
  destruct (Js.nonempty_array errors) eqn:Herr; [discriminate|].
  injection Hok as <- <-.
  exists item, bytes, now, errors. rewrite Hcalls, writeFailed_issuanceCalls.
  unfold issuanceCalls. rewrite Herr.
  repeat split; try assumption.
  - cbn. right. now left.
  - cbn. do 3 right. now left.
  - apply tokenOfBytes_alphanumeric.
  - apply tokenOfBytes_length.
Qed.

Lemma updateAuthToken_success_sound_witness :
  exists item bytes now errors,
    answer Host.handle
      (identityLookup (Sample.config "User" true) (Js.Str "a@x.com"))
      (Sample.world Sample.quiet) = [item]
    /\ Js.Str "1" = Js.get item "id"
    /\ In (CRandomBytes 20 bytes)
          (calls (exec Host.handle
                    (updateAuthToken (Sample.config "User" true) "magicAuth"
                       (Js.Str "a@x.com"))
                    (Sample.world Sample.quiet)))
    /\ "AAAAAAAAAAAAAAAAAAAA" = tokenOfBytes 20 bytes
    /\ In (CExecuteGraphQL true "updateUser" (Js.Str "1")
             (tokenData "magicAuth" "AAAAAAAAAAAAAAAAAAAA" now) errors)
          (calls (exec Host.handle
                    (updateAuthToken (Sample.config "User" true) "magicAuth"
                       (Js.Str "a@x.com"))
                    (Sample.world Sample.quiet)))
    /\ writeFailed
         (calls (exec Host.handle
                   (updateAuthToken (Sample.config "User" true) "magicAuth"
                      (Js.Str "a@x.com"))
                   (Sample.world Sample.quiet))) = false
    /\ string_forallb alphanumeric "AAAAAAAAAAAAAAAAAAAA" = true
    /\ String.length "AAAAAAAAAAAAAAAAAAAA" <= 20.
Proof.
  apply (updateAuthToken_success_sound
           _ Host.handle (Sample.world Sample.quiet)
           (Sample.config "User" true) "magicAuth" (Js.Str "a@x.com")
           (Js.Str "1") "AAAAAAAAAAAAAAAAAAAA").
  reflexivity.
Defined.

(** For every token type the write of [updateAuthToken] sets three
    properties whose names differ from one another, so none of them
    overrides another: read back from the data, [{type}Token] is the
    token, [{type}IssuedAt] the time and [{type}RedeemedAt] is [null]. *)
Theorem tokenData_read_back :
  forall (tokenType token now : string),
    Js.get (tokenData tokenType token now) (tokenType ++ "Token")%string
      = Js.Str token
    /\ Js.get (tokenData tokenType token now) (tokenType ++ "IssuedAt")%string
      = Js.Str now
    /\ Js.get (tokenData tokenType token now) (tokenType ++ "RedeemedAt")%string
      = Js.Null
    /\ NoDup (map fst (tokenData tokenType token now)).
Proof.
  intros tokenType token now. unfold tokenData.
  cbn [Js.get map fst]. rewrite !append_eqb_prefix, !String.eqb_refl.
  cbn [String.eqb Ascii.eqb Bool.eqb]. repeat split.
  assert (Hneq : forall a b, (a =? b)%string = false ->
                             (tokenType ++ a)%string <> (tokenType ++ b)%string).
  { intros a b Hab Heq. apply String.eqb_eq in Heq.
    rewrite append_eqb_prefix in Heq. congruence. }
  repeat constructor; cbn; intros H;
    repeat match goal with
           | H : _ \/ _ |- _ => destruct H as [H | H]
           | H : False |- _ => destruct H
           end;
    (eapply Hneq; [|exact H]; reflexivity).
Qed.
